(** * SpeakerAI: the analytic core, embedded and verified

    A shallow embedding of the decision logic of the SpeakerAI package:
    - [speakerai/audio/diarization.py]   ([SimpleEnergyDiarizer.diarize]),
    - [speakerai/audio/features.py]      ([FeatureExtractor.compute_speaking_rate],
                                          [FeatureExtractor.extract_features]),
    - [speakerai/audio/psychometrics.py] ([PsychometricAnalyzer._keyword_scores]),
    - [speakerai/pipeline.py]            ([SpeakerPipeline._match_speaker],
                                          [_vectorize], [_cosine_similarity],
                                          [_infer_names]).

    Python [float] is IEEE 754 binary64 and is modelled by Rocq's primitive
    floats, which are the same format with the same rounding.  Python [str] is
    modelled by [string]; case mapping and white space are those of ASCII, and
    other characters are caseless and not white space.  A Python exception is
    an explicit error value. *)

From Stdlib Require Import ZArith List String Ascii Bool Lia.
From Stdlib Require Import Floats.
From Stdlib Require Import DecimalString.
From stdpp Require Import base option list gmap strings.

Set Warnings "-inexact-float".
Local Open Scope string_scope.
Local Open Scope list_scope.

(** ** Python exceptions *)

Inductive exn : Type :=
  | IndexError
  | ValueError.

Inductive result (A : Type) : Type :=
  | Ok (a : A)
  | Raise (e : exn).
Arguments Ok {A} a.
Arguments Raise {A} e.

Definition bind {A B : Type} (r : result A) (k : A -> result B) : result B :=
  match r with
  | Ok a => k a
  | Raise e => Raise e
  end.

Notation "'let*' x := r 'in' k" := (bind r (fun x => k))
  (at level 10, x name, r at level 100, k at level 200).

(** A [for] loop whose body may raise: the state is threaded from left to
    right and the first exception ends the loop. *)
Fixpoint for_each {A S : Type} (body : S -> A -> result S) (xs : list A) (s : S)
  : result S :=
  match xs with
  | [] => Ok s
  | x :: xs' => let* s' := body s x in for_each body xs' s'
  end.

(** [xs[i]]: a subscript out of range raises [IndexError]. *)
Definition getitem {A : Type} (xs : list A) (i : nat) : result A :=
  match nth_error xs i with
  | Some a => Ok a
  | None => Raise IndexError
  end.

(** ** Python floats *)

Module PyFloat.

(** [float(n)] for a non-negative [int]: the nearest binary64, ties to even. *)
Definition of_nat (n : nat) : float :=
  SF2Prim (binary_normalize prec emax (Z.of_nat n) 0%Z false).

(** [max(a, b)] on two arguments: Python keeps [a] unless [b > a]. *)
Definition max (a b : float) : float :=
  if (a <? b)%float then b else a.

(** [sum(xs)]: a left fold of [+] that starts at the integer [0]. *)
Definition sum (xs : list float) : float :=
  fold_left PrimFloat.add xs 0%float.

(** The truth value of a float: every value but the two zeros. *)
Definition truthy (x : float) : bool := negb (x =? 0)%float.

(** [x or d] for an optional float [x]. *)
Definition or_default (x : option float) (d : float) : float :=
  match x with
  | Some v => if truthy v then v else d
  | None => d
  end.

(** Reading a comparison as "not greater", and the comparison of a chain. *)
Definition cmp_le (c : comparison) : bool :=
  match c with Gt => false | _ => true end.
Definition cmp_seq (c1 c2 : comparison) : comparison :=
  match c1 with Eq => c2 | _ => c1 end.

End PyFloat.

(** ** Python strings *)

Module PyStr.

Definition code (c : ascii) : nat := nat_of_ascii c.

Definition isupper (c : ascii) : bool := (65 <=? code c)%nat && (code c <=? 90)%nat.
Definition islower (c : ascii) : bool := (97 <=? code c)%nat && (code c <=? 122)%nat.

(** White space as [str.split] and [str.strip] see it: tab, line feed,
    vertical tab, form feed, carriage return, the four separators
    0x1c-0x1f, and space. *)
Definition isspace (c : ascii) : bool :=
  ((9 <=? code c)%nat && (code c <=? 13)%nat)
  || ((28 <=? code c)%nat && (code c <=? 32)%nat).

Definition lower_char (c : ascii) : ascii :=
  if isupper c then ascii_of_nat (code c + 32) else c.
Definition upper_char (c : ascii) : ascii :=
  if islower c then ascii_of_nat (code c - 32) else c.

(** [s.lower()] *)
Fixpoint lower (s : string) : string :=
  match s with
  | EmptyString => EmptyString
  | String c s' => String (lower_char c) (lower s')
  end.

(** [s.title()]: a cased character that follows an uncased one is upper-cased,
    every other cased character is lower-cased. *)
Fixpoint title_from (previous_is_cased : bool) (s : string) : string :=
  match s with
  | EmptyString => EmptyString
  | String c s' =>
      if islower c then
        String (if previous_is_cased then c else upper_char c) (title_from true s')
      else if isupper c then
        String (if previous_is_cased then lower_char c else c) (title_from true s')
      else String c (title_from false s')
  end.
Definition title (s : string) : string := title_from false s.

(** The truth value of a string: not empty. *)
Definition truthy (s : string) : bool :=
  match s with
  | EmptyString => false
  | String _ _ => true
  end.

Fixpoint lstrip_by (p : ascii -> bool) (s : string) : string :=
  match s with
  | EmptyString => EmptyString
  | String c s' => if p c then lstrip_by p s' else s
  end.

Fixpoint rstrip_by (p : ascii -> bool) (s : string) : string :=
  match s with
  | EmptyString => EmptyString
  | String c s' =>
      match rstrip_by p s' with
      | EmptyString => if p c then EmptyString else String c EmptyString
      | r => String c r
      end
  end.

Fixpoint mem_char (c : ascii) (chars : string) : bool :=
  match chars with
  | EmptyString => false
  | String d chars' => if Ascii.eqb c d then true else mem_char c chars'
  end.

(** [s.strip()] and [s.strip(chars)]: both ends are stripped. *)
Definition strip (s : string) : string := rstrip_by isspace (lstrip_by isspace s).
Definition strip_chars (chars s : string) : string :=
  rstrip_by (fun c => mem_char c chars) (lstrip_by (fun c => mem_char c chars) s).

(** [s.split()]: the maximal runs of characters that are not white space.
    [word] is the run read so far. *)
Fixpoint split_from (word : string) (s : string) : list string :=
  match s with
  | EmptyString => if truthy word then [word] else []
  | String c s' =>
      if isspace c then
        if truthy word then word :: split_from EmptyString s'
        else split_from EmptyString s'
      else split_from (word ++ String c EmptyString) s'
  end.
Definition split (s : string) : list string := split_from EmptyString s.

Fixpoint startswith (k s : string) : bool :=
  match k, s with
  | EmptyString, _ => true
  | String a k', String b s' => Ascii.eqb a b && startswith k' s'
  | String _ _, EmptyString => false
  end.

Fixpoint drop (n : nat) (s : string) : string :=
  match n, s with
  | O, _ => s
  | S n', String _ s' => drop n' s'
  | S _, EmptyString => EmptyString
  end.

(** [k in s] *)
Fixpoint contains (k s : string) : bool :=
  if startswith k s then true
  else match s with
       | EmptyString => false
       | String _ s' => contains k s'
       end.

(** [s.split(k, 1)] for a non-empty [k]: the text before and the text after
    the first occurrence of [k], or [s] alone when [k] does not occur. *)
Fixpoint split_once_from (before : string) (k s : string) : list string :=
  if startswith k s then [before; drop (String.length k) s]
  else match s with
       | EmptyString => [before]
       | String c s' => split_once_from (before ++ String c EmptyString) k s'
       end.
Definition split_once (k s : string) : list string := split_once_from EmptyString k s.

(** [sep.join(xs)] *)
Fixpoint join (sep : string) (xs : list string) : string :=
  match xs with
  | [] => EmptyString
  | [x] => x
  | x :: xs' => x ++ sep ++ join sep xs'
  end.

(** [chr(n)], written in UTF-8. *)
Definition chr (n : nat) : string :=
  let k := N.of_nat n in
  let b (v : N) := ascii_of_N v in
  let low (v : N) := b (128 + v mod 64)%N in
  if (k <? 128)%N then String (b k) EmptyString
  else if (k <? 2048)%N then
    String (b (192 + k / 64)%N) (String (low k) EmptyString)
  else if (k <? 65536)%N then
    String (b (224 + k / 4096)%N)
      (String (low (k / 64)%N) (String (low k) EmptyString))
  else
    String (b (240 + k / 262144)%N)
      (String (low (k / 4096)%N)
         (String (low (k / 64)%N) (String (low k) EmptyString))).

(** [x in xs] for a list of strings. *)
Definition mem (x : string) (xs : list string) : bool :=
  existsb (String.eqb x) xs.

End PyStr.

(** ** [speakerai/config.py] *)

Module config.
Definition MIN_SEGMENT_DURATION : float := 2.5%float.
Definition MAX_SEGMENT_DURATION : float := 15.0%float.
Definition FEATURE_SIMILARITY_THRESHOLD : float := 0.82%float.
End config.

(** ** [speakerai/audio/diarization.py] *)

Record DiarizationSegment : Type := mkDiarizationSegment {
  seg_start : float;
  seg_end : float;
  seg_speaker_label : string;
  seg_confidence : float
}.

Record SimpleEnergyDiarizer : Type := mkSimpleEnergyDiarizer {
  min_duration : float;
  max_duration : float
}.

(** [SimpleEnergyDiarizer.__init__]: an argument that is [None] or zero is
    replaced by the configured default. *)
Definition SimpleEnergyDiarizer_init (min_d max_d : option float) : SimpleEnergyDiarizer :=
  {| min_duration := PyFloat.or_default min_d config.MIN_SEGMENT_DURATION;
     max_duration := PyFloat.or_default max_d config.MAX_SEGMENT_DURATION |}.

(** The [idx]-th value of [speaker_cycle], namely [chr(ord("A") + idx)], and
    the label made of it.  [chr] is taken total: the [ValueError] past U+10FFFF
    needs more than a million label switches. *)
Definition speaker_cycle (idx : nat) : string := PyStr.chr (65 + idx).
Definition speaker_label_of (idx : nat) : string := "Speaker " ++ speaker_cycle idx.

(** The variables of the loop of [diarize]: how many values were taken from
    [speaker_cycle] after the first one (so [current_speaker] is
    [speaker_cycle cycle_pos]), the running [total_duration], and the
    segments appended so far. *)
Record diarize_state : Type := mkDiarizeState {
  cycle_pos : nat;
  total_duration : float;
  segments : list DiarizationSegment
}.

(** [duration = max(0.0, end - start)] *)
Definition span_duration (span : float * float) : float :=
  PyFloat.max 0%float (snd span - fst span)%float.

(** One pass of the loop body, for the time span [(start, end)]. *)
Definition diarize_step (self : SimpleEnergyDiarizer) (st : diarize_state)
    (span : float * float) : diarize_state :=
  let '(start, end_) := span in
  let duration := span_duration span in
  let total := (total_duration st + duration)%float in
  let '(pos, total') :=
    if (max_duration self <? duration)%float && (0 <? length (segments st))%nat then
      (S (cycle_pos st), total)
    else if (max_duration self <=? total)%float then
      (S (cycle_pos st), 0%float)
    else (cycle_pos st, total) in
  {| cycle_pos := pos;
     total_duration := total';
     segments := segments st ++
       [ {| seg_start := start; seg_end := end_;
            seg_speaker_label := speaker_label_of pos;
            seg_confidence := 0.5%float |} ] |}.

Definition diarize_loop (self : SimpleEnergyDiarizer) (timestamps : list (float * float))
    (st : diarize_state) : diarize_state :=
  fold_left (diarize_step self) timestamps st.

(** [SimpleEnergyDiarizer.diarize] *)
Definition diarize (self : SimpleEnergyDiarizer) (timestamps : list (float * float))
  : list DiarizationSegment :=
  match timestamps with
  | [] => []
  | _ =>
      segments (diarize_loop self timestamps
                  {| cycle_pos := 0; total_duration := 0%float; segments := [] |})
  end.

(** The time span a segment carries. *)
Definition span_of (seg : DiarizationSegment) : float * float :=
  (seg_start seg, seg_end seg).

(** The running [total_duration] after each of the spans, when it is never
    reset: the sums of the non-empty prefixes of the durations. *)
Definition cumulative_durations (timestamps : list (float * float)) : list float :=
  map (fun k => PyFloat.sum (map span_duration (take k timestamps)))
      (seq 1 (length timestamps)).

(** ** [speakerai/audio/features.py] *)

Record FeatureSet : Type := mkFeatureSet {
  mean_pitch : float;
  pitch_std : float;
  speaking_rate : float;
  energy_mean : float;
  energy_std : float;
  spectral_centroid_mean : float;
  spectral_centroid_std : float
}.

(** [FeatureSet.to_dict] *)
Definition FeatureSet_to_dict (f : FeatureSet) : gmap string float :=
  list_to_map
    [ ("mean_pitch", mean_pitch f); ("pitch_std", pitch_std f);
      ("speaking_rate", speaking_rate f); ("energy_mean", energy_mean f);
      ("energy_std", energy_std f);
      ("spectral_centroid_mean", spectral_centroid_mean f);
      ("spectral_centroid_std", spectral_centroid_std f) ].

(** [sum(len(text.split()) for text in texts)] *)
Definition word_count (texts : list string) : nat :=
  list_sum (map (fun text => length (PyStr.split text)) texts).

(** [FeatureExtractor.compute_speaking_rate] *)
Definition compute_speaking_rate (transcript_texts : list string) (duration : float) : float :=
  let total_words := word_count transcript_texts in
  if (duration <=? 0)%float then 0%float
  else (PyFloat.of_nat total_words / (duration / 60.0))%float.

Section FeatureExtraction.

(** The signal-analysis collaborator (librosa and numpy): the pitch, energy
    and spectral-centroid samples of the audio between [start] and [end],
    and the two reductions applied to them. *)
Variables segment_pitch segment_energy segment_centroid : float -> float -> list float.
Variables np_mean np_std : list float -> float.

(** [FeatureExtractor.extract_features] *)
Definition extract_features (transcript_texts : list string) (start end_ : float)
  : FeatureSet :=
  let pitch := segment_pitch start end_ in
  let energy := segment_energy start end_ in
  let centroid := segment_centroid start end_ in
  let rate :=
    compute_speaking_rate transcript_texts (PyFloat.max 1.0%float (end_ - start)%float) in
  {| mean_pitch := np_mean pitch;
     pitch_std := np_std pitch;
     speaking_rate := rate;
     energy_mean := np_mean energy;
     energy_std := np_std energy;
     spectral_centroid_mean := np_mean centroid;
     spectral_centroid_std := np_std centroid |}.

End FeatureExtraction.

(** The speaking rate as the specification words it: the word count over
    [max(1.0, duration_minutes)], the minutes taken from
    [max(1.0, span.duration)] seconds, and [0.0] for a span whose duration is
    not positive. *)
Definition spec_speaking_rate (texts : list string) (start end_ : float) : float :=
  if (end_ - start <=? 0)%float then 0%float
  else
    let duration_minutes := (PyFloat.max 1.0 (end_ - start) / 60.0)%float in
    (PyFloat.of_nat (word_count texts) / PyFloat.max 1.0 duration_minutes)%float.

(** ** [speakerai/audio/psychometrics.py] *)

(** The dictionary of keyword sets, in its insertion order; a set is listed
    without repetition. *)
Definition BASIC_EMOTION_KEYWORDS : list (string * list string) :=
  [ ("excited", ["excited"; "thrilled"; "pumped"; "energetic"]);
    ("angry", ["angry"; "furious"; "frustrated"; "mad"]);
    ("happy", ["happy"; "glad"; "pleased"; "delighted"]);
    ("sad", ["sad"; "upset"; "down"; "unhappy"]);
    ("fun", ["fun"; "enjoy"; "laugh"; "joke"; "humor"]) ].

Definition DEFAULT_SCORES : gmap string float :=
  list_to_map
    [ ("excited", 0%float); ("angry", 0%float); ("happy", 0%float); ("sad", 0%float);
      ("fun", 0%float); ("valence", 0%float); ("arousal", 0%float);
      ("dominance", 0%float) ].

(** [collections.Counter(xs)] *)
Definition Counter (xs : list string) : gmap string nat :=
  fold_left (fun m x => <[x := S (default 0 (m !! x))]> m) xs ∅.

(** [d.get(k, 0.0)] *)
Definition get_float (d : gmap string float) (k : string) : float :=
  default 0%float (d !! k).

(** The tokens the keyword pass counts. *)
Definition keyword_tokens (combined_text : string) : list string :=
  map (fun token => PyStr.lower (PyStr.strip_chars ".,!?" token))
      (PyStr.split combined_text).

(** [PsychometricAnalyzer._keyword_scores] *)
Definition _keyword_scores (combined_text : string) : gmap string float :=
  let word_counts := Counter (keyword_tokens combined_text) in
  fold_left
    (fun keyword_scores '(metric, keywords) =>
       let count := list_sum (map (fun keyword => default 0 (word_counts !! keyword)) keywords) in
       <[metric := PyFloat.of_nat count]> keyword_scores)
    BASIC_EMOTION_KEYWORDS ∅.

(** How many of the tokens are keywords of the category, and how often one
    string occurs among the tokens. *)
Definition keyword_occurrences (keywords tokens : list string) : nat :=
  length (List.filter (fun token => PyStr.mem token keywords) tokens).
Definition occurrences (k : string) (tokens : list string) : nat :=
  length (List.filter (String.eqb k) tokens).

(** The keyword pass as the specification words it: each token is stripped
    of trailing [. , ! ?] only, then lower-cased, and the score of a category
    is the number of occurrences of its keywords. *)
Definition spec_keyword_tokens (combined_text : string) : list string :=
  map (fun token =>
         PyStr.lower (PyStr.rstrip_by (fun c => PyStr.mem_char c ".,!?") token))
      (PyStr.split combined_text).
Definition spec_keyword_score (keywords : list string) (combined_text : string) : float :=
  PyFloat.of_nat (keyword_occurrences keywords (spec_keyword_tokens combined_text)).

(** [PsychometricAnalyzer._normalize] *)
Definition _normalize (scores acoustic_stats : gmap string float) : gmap string float :=
  let energy := get_float acoustic_stats "energy_mean" in
  let pitch := get_float acoustic_stats "mean_pitch" in
  let normalized := scores in
  let normalized :=
    <["arousal" := (get_float scores "arousal" + energy / 10.0)%float]> normalized in
  <["dominance" := (get_float scores "dominance" + pitch / 400.0)%float]> normalized.

(** [PsychometricAnalyzer.analyze]; [sentiment] is the optional polarity
    collaborator.  [scores.update(d)] lets the entries of [d] win. *)
Definition analyze (sentiment : option (string -> gmap string float))
    (texts : list string) (acoustic_stats : gmap string float) : gmap string float :=
  let combined_text := PyStr.join " " texts in
  let scores := DEFAULT_SCORES in
  let scores :=
    match sentiment with
    | Some polarity_scores =>
        let sentiment_scores := polarity_scores combined_text in
        let scores := <["valence" := get_float sentiment_scores "compound"]> scores in
        let scores :=
          <["arousal" := (get_float sentiment_scores "pos"
                          - get_float sentiment_scores "neg")%float]> scores in
        <["dominance" := get_float sentiment_scores "pos"]> scores
    | None => <["valence" := 0%float]> scores
    end in
  let scores := _keyword_scores combined_text ∪ scores in
  _normalize scores acoustic_stats.

(** ** [speakerai/models.py] *)

Record SpeakerTurn : Type := mkSpeakerTurn {
  turn_speaker_label : string;
  turn_start : float;
  turn_end : float;
  turn_text : string;
  turn_speaker_name : option string;
  turn_confidence : option float
}.

Record SpeakerProfile : Type := mkSpeakerProfile {
  speaker_label : string;
  features : gmap string float;
  stats : gmap string float;
  psychometrics : gmap string float;
  inferred_names : list string;
  matched_speaker_id : option Z;
  matched_speaker_name : option string
}.

(** ** [speakerai/database.py]: a row of [get_all_speakers] *)

Record SpeakerRow : Type := mkSpeakerRow {
  row_id : Z;
  row_name : string;
  row_feature_vector : gmap string float;
  row_stats : gmap string float;
  row_psychometrics : gmap string float
}.

(** ** [speakerai/pipeline.py] *)

(** The dictionary [best_match] of [_match_speaker]. *)
Record SpeakerMatch : Type := mkSpeakerMatch {
  speaker_id : Z;
  speaker_name : string;
  score : float
}.

(** [sorted(d.items())]: the keys of a dictionary are distinct, so the pairs
    are ordered by key. *)
Fixpoint insert_item (kv : string * float) (sorted : list (string * float))
  : list (string * float) :=
  match sorted with
  | [] => [kv]
  | kv' :: rest =>
      if String.leb (fst kv) (fst kv') then kv :: sorted
      else kv' :: insert_item kv rest
  end.
Definition sorted_items (d : gmap string float) : list (string * float) :=
  foldr insert_item [] (map_to_list d).

(** [SpeakerPipeline._vectorize], as the list it is without numpy. *)
Definition _vectorize (feature_dict : gmap string float) : list float :=
  map snd (sorted_items feature_dict).

(** [zip(a, b)] *)
Fixpoint zip {A B : Type} (a : list A) (b : list B) : list (A * B) :=
  match a, b with
  | x :: a', y :: b' => (x, y) :: zip a' b'
  | _, _ => []
  end.

(** [SpeakerPipeline._cosine_similarity], the branch written out in the
    source for lists. *)
Definition _cosine_similarity (a b : list float) : float :=
  let dot := PyFloat.sum (map (fun '(x, y) => (x * y)%float) (zip a b)) in
  let norm_a := PrimFloat.sqrt (PyFloat.sum (map (fun x => (x * x)%float) a)) in
  let norm_b := PrimFloat.sqrt (PyFloat.sum (map (fun y => (y * y)%float) b)) in
  if (norm_a =? 0)%float || (norm_b =? 0)%float then 0%float
  else (dot / (norm_a * norm_b))%float.

(** The truth value of [team_members]: a list that is given and not empty. *)
Definition team_truthy (team_members : option (list string)) : bool :=
  match team_members with
  | Some (_ :: _) => true
  | _ => false
  end.

(** [name not in team_members], evaluated only when [team_members] is true. *)
Definition not_in_team (name : string) (team_members : option (list string)) : bool :=
  match team_members with
  | Some team => negb (PyStr.mem name team)
  | None => false
  end.

(** The [continue] test of the matching loop. *)
Definition skipped (team_members : option (list string)) (row : SpeakerRow) : bool :=
  team_truthy team_members && not_in_team (row_name row) team_members.

(** The score the loop computes for a row that is not skipped. *)
Definition row_score (vector : list float) (row : SpeakerRow) : float :=
  _cosine_similarity vector (_vectorize (row_feature_vector row)).

(** One pass of the loop body; the state is [(best_score, best_match)]. *)
Definition match_step (vector : list float) (team_members : option (list string))
    (st : float * option SpeakerMatch) (row : SpeakerRow) : float * option SpeakerMatch :=
  let '(best_score, best_match) := st in
  if skipped team_members row then st
  else
    let score := row_score vector row in
    if (best_score <? score)%float
       && (config.FEATURE_SIMILARITY_THRESHOLD <=? score)%float
    then (score, Some {| speaker_id := row_id row; speaker_name := row_name row;
                          score := score |})
    else st.

(** [SpeakerPipeline._match_speaker]; [known_speakers] is what
    [database.get_all_speakers()] returned. *)
Definition _match_speaker (known_speakers : list SpeakerRow) (profile : SpeakerProfile)
    (team_members : option (list string)) : option SpeakerMatch :=
  match known_speakers with
  | [] => None
  | _ =>
      let vector := _vectorize (features profile) in
      snd (fold_left (match_step vector team_members) known_speakers (0%float, None))
  end.

(** What the loop has established once it has gone through the rows [seen]:
    with no match yet, no row it considered reaches the threshold; with a
    match, the match is a considered row that reaches the threshold, every
    considered row before it scores strictly less and no considered row after
    it scores more. *)
Definition match_invariant (vector : list float) (team_members : option (list string))
    (seen : list SpeakerRow) (st : float * option SpeakerMatch) : Prop :=
  match snd st with
  | None =>
      fst st = 0%float
      /\ forall r, In r seen -> skipped team_members r = false ->
           (config.FEATURE_SIMILARITY_THRESHOLD <=? row_score vector r)%float = false
  | Some m =>
      fst st = score m
      /\ (config.FEATURE_SIMILARITY_THRESHOLD <=? score m)%float = true
      /\ exists before row after,
           seen = before ++ row :: after
           /\ skipped team_members row = false
           /\ m = {| speaker_id := row_id row; speaker_name := row_name row;
                     score := row_score vector row |}
           /\ (forall r, In r before -> skipped team_members r = false ->
                 (score m <=? row_score vector r)%float = false)
           /\ (forall r, In r after -> skipped team_members r = false ->
                 (score m <? row_score vector r)%float = false)
  end.

(** Sample data: the feature values of the repository's test double, and a
    store with one distant and two identical rows. *)
Definition sample_features : gmap string float :=
  FeatureSet_to_dict (mkFeatureSet 200.0 5.0 150.0 0.5 0.1 1000.0 50.0).
Definition distant_features : gmap string float :=
  FeatureSet_to_dict (mkFeatureSet 1.0 900.0 2.0 40.0 30.0 3.0 700.0).
Definition sample_profile : SpeakerProfile :=
  {| speaker_label := "Speaker A"; features := sample_features; stats := ∅;
     psychometrics := ∅; inferred_names := []; matched_speaker_id := None;
     matched_speaker_name := None |}.
Definition sample_store : list SpeakerRow :=
  [ mkSpeakerRow 1 "Carol" distant_features ∅ ∅;
    mkSpeakerRow 2 "Alice" sample_features ∅ ∅;
    mkSpeakerRow 3 "Bob" sample_features ∅ ∅ ].

(** The phrases of [_infer_names], in the order they are tried. *)
Definition name_keywords : list string := ["i am"; "my name is"; "this is"].

(** [segment = lower.split(keyword, 1)[1].strip()] and then
    [name = segment.split()[0]]. *)
Definition name_after (keyword lower : string) : result string :=
  let* after := getitem (PyStr.split_once keyword lower) 1 in
  let segment := PyStr.strip after in
  getitem (PyStr.split segment) 0.

(** The body of the inner loop of [_infer_names], for one phrase. *)
Definition infer_keyword (lower : string) (inferred : list string) (keyword : string)
  : result (list string) :=
  if PyStr.contains keyword lower then
    let* name := name_after keyword lower in
    if PyStr.truthy name && negb (PyStr.mem name inferred)
    then Ok (inferred ++ [PyStr.title name])
    else Ok inferred
  else Ok inferred.

(** The body of the outer loop, for one turn. *)
Definition infer_turn (inferred : list string) (turn : SpeakerTurn) : result (list string) :=
  let lower := PyStr.lower (turn_text turn) in
  for_each (infer_keyword lower) name_keywords inferred.

(** [SpeakerPipeline._infer_names] *)
Definition _infer_names (turns : list SpeakerTurn) : result (list string) :=
  for_each infer_turn turns [].

(** A turn of the first speaker with the given text. *)
Definition turn_saying (text : string) : SpeakerTurn :=
  {| turn_speaker_label := "Speaker A"; turn_start := 0%float; turn_end := 1%float;
     turn_text := text; turn_speaker_name := None; turn_confidence := None |}.

(** Strings that [lower] and [title] leave as they are. *)
Definition lowered (s : string) : Prop := PyStr.lower s = s.

(** The phrases that occur in a lower-cased text, in the order they are
    tried. *)
Definition occurring_phrases (lower : string) : list string :=
  List.filter (fun keyword => PyStr.contains keyword lower) name_keywords.

(** What a phrase that occurs does to the list of names, [name] being the
    token after it: the title-cased token is appended unless the token is in
    the list. *)
Definition add_name (inferred : list string) (name : string) : list string :=
  if PyStr.mem name inferred then inferred else inferred ++ [PyStr.title name].

(** The tokens after the phrases that occur in a turn, phrase by phrase. *)
Definition turn_tokens (turn : SpeakerTurn) (tokens : list string) : Prop :=
  Forall2 (fun keyword name => name_after keyword (PyStr.lower (turn_text turn)) = Ok name)
          (occurring_phrases (PyStr.lower (turn_text turn))) tokens.

(** ** Further functions of the package *)

(** [min(a, b)] on two arguments: Python keeps [a] unless [b < a]. *)
Definition py_min (a b : float) : float :=
  if (b <? a)%float then b else a.

(** [str(n)] for a non-negative [int]. *)
Definition str_of_nat (n : nat) : string := NilZero.string_of_uint (Nat.to_uint n).

(** [SpeakerTurn.duration] *)
Definition turn_duration (turn : SpeakerTurn) : float :=
  PyFloat.max 0%float (turn_end turn - turn_start turn)%float.

(** [assign_speakers]: an object without [__bool__] is true, so a diarizer
    that is given is used. *)
Definition assign_speakers (segments : list (float * float))
    (diarizer : option SimpleEnergyDiarizer) : list DiarizationSegment :=
  let diarizer :=
    match diarizer with
    | Some d => d
    | None => SimpleEnergyDiarizer_init None None
    end in
  diarize diarizer segments.

(** Label positions that climb: each one repeats the previous one or is the
    next one. *)
Fixpoint climbs (previous : nat) (positions : list nat) : Prop :=
  match positions with
  | [] => True
  | p :: rest => (p = previous \/ p = S previous) /\ climbs p rest
  end.

(** ** [speakerai/audio/transcription.py] *)

Record TranscriptSegment : Type := mkTranscriptSegment {
  ts_start : float;
  ts_end : float;
  ts_text : string;
  ts_confidence : float
}.

(** [TranscriptionService.transcribe], from the segments that
    [_transcribe_segments] returned. *)
Definition transcribe (segments : list TranscriptSegment) : list SpeakerTurn :=
  let diarized_segments :=
    assign_speakers (map (fun seg => (ts_start seg, ts_end seg)) segments) None in
  map (fun '(seg, diarized) =>
         {| turn_speaker_label := seg_speaker_label diarized;
            turn_start := ts_start seg;
            turn_end := ts_end seg;
            turn_text := ts_text seg;
            turn_speaker_name := None;
            turn_confidence := Some (ts_confidence seg) |})
      (zip segments diarized_segments).

(** The [while] loop of [_naive_transcription]; [fuel] bounds the number of
    tests of [start < duration], and [None] means that the bound was reached. *)
Fixpoint naive_loop (fuel : nat) (duration start : float) (idx : nat)
    (segments : list TranscriptSegment) : option (list TranscriptSegment) :=
  match fuel with
  | O => None
  | S fuel' =>
      if (start <? duration)%float then
        let end_ := py_min duration (start + config.MAX_SEGMENT_DURATION)%float in
        naive_loop fuel' duration end_ (S idx)
          (segments ++
             [ {| ts_start := start; ts_end := end_;
                  ts_text := "[UNTRANSCRIBED SEGMENT " ++ str_of_nat idx ++ "]";
                  ts_confidence := 0%float |} ])
      else Some segments
  end.

(** [TranscriptionService._naive_transcription], from the duration that
    [_estimate_duration] returned. *)
Definition _naive_transcription (fuel : nat) (duration : float)
  : option (list TranscriptSegment) :=
  naive_loop fuel duration 0%float 0 [].

(** Segments that follow one another without a gap, the first one starting at
    [start], and the time at which the last one ends. *)
Fixpoint chained (start : float) (segments : list TranscriptSegment) : Prop :=
  match segments with
  | [] => True
  | seg :: rest => ts_start seg = start /\ chained (ts_end seg) rest
  end.
Fixpoint chain_end (start : float) (segments : list TranscriptSegment) : float :=
  match segments with
  | [] => start
  | seg :: rest => chain_end (ts_end seg) rest
  end.
(** The eight keys of a score dictionary. *)
Definition SCORE_KEYS : list string :=
  ["excited"; "angry"; "happy"; "sad"; "fun"; "valence"; "arousal"; "dominance"].
(** A name that is not empty and is the title-cased token after a phrase
    that occurs in one of the turns. *)
Definition name_from_phrase (turns : list SpeakerTurn) (name : string) : Prop :=
  PyStr.truthy name = true
  /\ exists turn keyword token,
       In turn turns
       /\ In keyword name_keywords
       /\ PyStr.contains keyword (PyStr.lower (turn_text turn)) = true
       /\ name_after keyword (PyStr.lower (turn_text turn)) = Ok token
       /\ name = PyStr.title token.

(** ** [_cosine_similarity] and [_match_speaker] with and without numpy *)

(** The two numpy functions that [_cosine_similarity] calls, on arrays of one
    dimension: [np.linalg.norm], and [np.dot] on two arrays of one length.
    Their rounding is the library's. *)
Record numpy : Type := mkNumpy {
  np_linalg_norm : list float -> float;
  np_dot : list float -> list float -> float
}.

(** [SpeakerPipeline._cosine_similarity], both branches: with numpy, [np.dot]
    raises [ValueError] on arrays of different lengths; without it, [zip]
    stops at the shorter list. *)
Definition cosine_similarity_with (np : option numpy) (a b : list float) : result float :=
  match np with
  | Some m =>
      if (np_linalg_norm m a =? 0)%float || (np_linalg_norm m b =? 0)%float
      then Ok 0%float
      else if Nat.eqb (length a) (length b)
           then Ok (np_dot m a b / (np_linalg_norm m a * np_linalg_norm m b))%float
           else Raise ValueError
  | None => Ok (_cosine_similarity a b)
  end.

(** One pass of the matching loop, the score coming from either branch. *)
Definition match_step_with (np : option numpy) (vector : list float)
    (team_members : option (list string))
    (st : float * option SpeakerMatch) (row : SpeakerRow)
  : result (float * option SpeakerMatch) :=
  if skipped team_members row then Ok st
  else
    let* score := cosine_similarity_with np vector (_vectorize (row_feature_vector row)) in
    if (fst st <? score)%float
       && (config.FEATURE_SIMILARITY_THRESHOLD <=? score)%float
    then Ok (score, Some {| speaker_id := row_id row; speaker_name := row_name row;
                             score := score |})
    else Ok st.

(** [SpeakerPipeline._match_speaker], both branches. *)
Definition match_speaker_with (np : option numpy) (known_speakers : list SpeakerRow)
    (profile : SpeakerProfile) (team_members : option (list string))
  : result (option SpeakerMatch) :=
  match known_speakers with
  | [] => Ok None
  | _ =>
      let vector := _vectorize (features profile) in
      let* st := for_each (match_step_with np vector team_members) known_speakers
                   (0%float, None) in
      Ok (snd st)
  end.

(** A numpy that sums from left to right. *)
Definition sample_numpy : numpy :=
  {| np_linalg_norm := fun a => PrimFloat.sqrt (PyFloat.sum (map (fun x => (x * x)%float) a));
     np_dot := fun a b => PyFloat.sum (map (fun '(x, y) => (x * y)%float) (zip a b)) |}.
(** ** [SpeakerPipeline._build_profiles] *)

(** [grouped[turn.speaker_label].append(turn)] on a dictionary that keeps its
    insertion order.  A group exists from its first turn on, so it is held as
    that turn and the turns appended after it. *)
Fixpoint group_append (turn : SpeakerTurn)
    (grouped : list (string * (SpeakerTurn * list SpeakerTurn)))
  : list (string * (SpeakerTurn * list SpeakerTurn)) :=
  match grouped with
  | [] => [(turn_speaker_label turn, (turn, []))]
  | (label, (first, rest)) :: others =>
      if String.eqb label (turn_speaker_label turn)
      then (label, (first, rest ++ [turn])) :: others
      else (label, (first, rest)) :: group_append turn others
  end.

Definition group_turns (turns : list SpeakerTurn)
  : list (string * (SpeakerTurn * list SpeakerTurn)) :=
  fold_left (fun grouped turn => group_append turn grouped) turns [].

(** The turns of a group, in the order they were appended. *)
Definition group_members (group : string * (SpeakerTurn * list SpeakerTurn))
  : list SpeakerTurn :=
  fst (snd group) :: snd (snd group).

(** [turn.speaker_name = name] for the turns of the group with this label.
    The turns of a group are the very objects of the list of turns, so the
    assignment made through the group shows in the list. *)
Definition name_turns (label name : string) (turns : list SpeakerTurn)
  : list SpeakerTurn :=
  map (fun turn =>
         if String.eqb (turn_speaker_label turn) label
         then {| turn_speaker_label := turn_speaker_label turn;
                 turn_start := turn_start turn;
                 turn_end := turn_end turn;
                 turn_text := turn_text turn;
                 turn_speaker_name := Some name;
                 turn_confidence := turn_confidence turn |}
         else turn)
      turns.

Section BuildProfiles.

(** The collaborators of the pipeline: the feature extractor and the
    psychometric analyzer it was built with (each applied to the audio file
    at hand), [statistics.mean], and the rows [database.get_all_speakers()]
    returns, which nothing changes during the pass. *)
Variable extractor : list string -> float -> float -> FeatureSet.
Variable analyzer : list string -> gmap string float -> gmap string float.
Variable statistics_mean : list float -> float.
Variable known_speakers : list SpeakerRow.
Variable team_members : option (list string).

(** The body of the loop over the groups, up to the profile it appends.  The
    two counts of [stats] are integers in the source; the dictionary holds
    them as the floats they are equal to. *)
Definition build_profile (group : string * (SpeakerTurn * list SpeakerTurn))
  : result SpeakerProfile :=
  let '(label, (first, rest)) := group in
  let speaker_turns := first :: rest in
  let texts := map turn_text speaker_turns in
  let start := fold_left py_min (map turn_start rest) (turn_start first) in
  let end_ := fold_left PyFloat.max (map turn_end rest) (turn_end first) in
  let features := extractor texts start end_ in
  let stats : gmap string float :=
    list_to_map
      [ ("total_duration", PyFloat.sum (map turn_duration speaker_turns));
        ("turn_count", PyFloat.of_nat (length speaker_turns));
        ("avg_turn_duration", statistics_mean (map turn_duration speaker_turns));
        ("word_count", PyFloat.of_nat (word_count texts)) ] in
  let psychometrics_scores := analyzer texts (FeatureSet_to_dict features) in
  let* names := _infer_names speaker_turns in
  let profile :=
    {| speaker_label := label;
       features := FeatureSet_to_dict features;
       stats := stats;
       psychometrics := psychometrics_scores;
       inferred_names := names;
       matched_speaker_id := None;
       matched_speaker_name := None |} in
  match _match_speaker known_speakers profile team_members with
  | Some m =>
      Ok {| speaker_label := label;
            features := FeatureSet_to_dict features;
            stats := stats;
            psychometrics := psychometrics_scores;
            inferred_names := names;
            matched_speaker_id := Some (speaker_id m);
            matched_speaker_name := Some (speaker_name m) |}
  | None => Ok profile
  end.

(** One pass of the loop; the state is the list of profiles so far and the
    turns with the names written on them so far. *)
Definition build_step (st : list SpeakerProfile * list SpeakerTurn)
    (group : string * (SpeakerTurn * list SpeakerTurn))
  : result (list SpeakerProfile * list SpeakerTurn) :=
  let '(all_profiles, turns) := st in
  let* profile := build_profile group in
  let turns :=
    match matched_speaker_name profile with
    | Some name => name_turns (fst group) name turns
    | None => turns
    end in
  Ok (all_profiles ++ [profile], turns).

(** [SpeakerPipeline._build_profiles]: the profiles it returns, and the turns
    as it leaves them. *)
Definition _build_profiles (turns : list SpeakerTurn)
  : result (list SpeakerProfile * list SpeakerTurn) :=
  for_each build_step (group_turns turns) ([], turns).

End BuildProfiles.

(** The labels of a list in the order of their first appearance. *)
Definition first_seen (labels : list string) : list string :=
  fold_left (fun seen label => if PyStr.mem label seen then seen else seen ++ [label])
            labels [].

(** The turns that carry a label. *)
Definition turns_labelled (label : string) (turns : list SpeakerTurn) : list SpeakerTurn :=
  List.filter (fun turn => String.eqb label (turn_speaker_label turn)) turns.

(** A group after an append: the group of the turn's label gets the turn. *)
Definition extend_group (turn : SpeakerTurn)
    (group : string * (SpeakerTurn * list SpeakerTurn))
  : string * (SpeakerTurn * list SpeakerTurn) :=
  if String.eqb (fst group) (turn_speaker_label turn)
  then (fst group, (fst (snd group), snd (snd group) ++ [turn]))
  else group.

(** What the passes of the loop write on one turn: the name of each matched
    profile whose group has the turn's label. *)
Definition write_name (turn : SpeakerTurn)
    (pair : (string * (SpeakerTurn * list SpeakerTurn)) * SpeakerProfile) : SpeakerTurn :=
  match matched_speaker_name (snd pair) with
  | Some name =>
      if String.eqb (turn_speaker_label turn) (fst (fst pair))
      then {| turn_speaker_label := turn_speaker_label turn;
              turn_start := turn_start turn;
              turn_end := turn_end turn;
              turn_text := turn_text turn;
              turn_speaker_name := Some name;
              turn_confidence := turn_confidence turn |}
      else turn
  | None => turn
  end.

(** A profile as [build_profile] makes it from the turns of its label. *)
Definition profile_of_turns
    (extractor : list string -> float -> float -> FeatureSet)
    (analyzer : list string -> gmap string float -> gmap string float)
    (known_speakers : list SpeakerRow) (team_members : option (list string))
    (turns : list SpeakerTurn) (profile : SpeakerProfile) : Prop :=
  let speaker_turns := turns_labelled (speaker_label profile) turns in
  let texts := map turn_text speaker_turns in
  speaker_turns <> []
  /\ _infer_names speaker_turns = Ok (inferred_names profile)
  /\ psychometrics profile = analyzer texts (features profile)
  /\ stats profile !! "turn_count" = Some (PyFloat.of_nat (length speaker_turns))
  /\ stats profile !! "word_count" = Some (PyFloat.of_nat (word_count texts))
  /\ stats profile !! "total_duration"
     = Some (PyFloat.sum (map turn_duration speaker_turns))
  /\ match _match_speaker known_speakers profile team_members with
     | Some m =>
         matched_speaker_id profile = Some (speaker_id m)
         /\ matched_speaker_name profile = Some (speaker_name m)
     | None =>
         matched_speaker_id profile = None /\ matched_speaker_name profile = None
     end.

(** A turn with a name written on it, when there is one to write. *)
Definition with_name (name : option string) (turn : SpeakerTurn) : SpeakerTurn :=
  match name with
  | Some n =>
      {| turn_speaker_label := turn_speaker_label turn;
         turn_start := turn_start turn;
         turn_end := turn_end turn;
         turn_text := turn_text turn;
         turn_speaker_name := Some n;
         turn_confidence := turn_confidence turn |}
  | None => turn
  end.

(** Sample data: the three turns, the feature extractor and the analyzer of
    the repository's test. *)
Definition sample_turns : list SpeakerTurn :=
  [ mkSpeakerTurn "Speaker A" 0.0 5.0 "My name is Alice" None None;
    mkSpeakerTurn "Speaker B" 5.0 9.0 "Project update" None None;
    mkSpeakerTurn "Speaker A" 9.0 12.0 "We are happy" None None ].
Definition sample_extractor (texts : list string) (start end_ : float) : FeatureSet :=
  mkFeatureSet 200.0 5.0 150.0 0.5 0.1 1000.0 50.0.
Definition sample_analyzer (texts : list string) (acoustic_stats : gmap string float)
  : gmap string float :=
  list_to_map
    [ ("excited", 1.0%float); ("happy", 2.0%float); ("valence", 0.5%float);
      ("arousal", 0.2%float); ("dominance", 0.1%float); ("angry", 0.0%float);
      ("sad", 0.0%float); ("fun", 1.0%float) ].
Definition sample_mean (values : list float) : float :=
  (PyFloat.sum values / PyFloat.of_nat (length values))%float.
(** ** [speakerai/web/app.py]: the allow-list of the [analyze] handler *)

(** [s.split(sep)] for a separator of one character: the pieces between the
    separators, empty ones included.  [word] is the piece read so far. *)
Fixpoint split_on_from (sep : ascii) (word s : string) : list string :=
  match s with
  | EmptyString => [word]
  | String c s' =>
      if Ascii.eqb c sep then word :: split_on_from sep EmptyString s'
      else split_on_from sep (word ++ String c EmptyString) s'
  end.
Definition split_on (sep : ascii) (s : string) : list string :=
  split_on_from sep EmptyString s.

(** [[member.strip() for member in (team_members or "").split(",")
      if member.strip()]] *)
Definition form_team (team_members : option string) : list string :=
  let text :=
    match team_members with
    | Some s => if PyStr.truthy s then s else EmptyString
    | None => EmptyString
    end in
  map PyStr.strip
      (List.filter (fun member => PyStr.truthy (PyStr.strip member)) (split_on "," text)).

(** [team or None], the allow-list handed to the pipeline. *)
Definition handler_team (team_members : option string) : option (list string) :=
  match form_team team_members with
  | [] => None
  | team => Some team
  end.

(** * Properties *)

(** ** The order of binary64 *)

Section FloatOrder.

Local Open Scope float_scope.
Import PyFloat.

Ltac split_compare :=
  repeat match goal with
  | |- context [Pos.compare_cont Eq ?a ?b] =>
      rewrite (Pos.compare_cont_spec a b Eq); simpl
  | |- context [(?a ?= ?b)%Z] => destruct (Z.compare_spec a b); simpl
  | |- context [(?a ?= ?b)%positive] => destruct (Pos.compare_spec a b); simpl
  end.

Lemma SFcompare_antisym x y c :
  SFcompare x y = Some c -> SFcompare y x = Some (CompOpp c).
Proof.
  destruct x as [[]|[]| |[] mx ex], y as [[]|[]| |[] my ey]; simpl;
    intros H; try congruence; inversion H; subst; clear H; try reflexivity.
  all: split_compare; first [reflexivity | lia].
Qed.

Lemma SFcompare_trans x y z c1 c2 :
  SFcompare x y = Some c1 -> SFcompare y z = Some c2 ->
  cmp_le c1 = true -> cmp_le c2 = true ->
  SFcompare x z = Some (cmp_seq c1 c2).
Proof.
  destruct x as [[]|[]| |[] mx ex], y as [[]|[]| |[] my ey],
           z as [[]|[]| |[] mz ez]; simpl;
    intros H1 H2; try congruence;
    inversion H1; subst; clear H1; inversion H2; subst; clear H2;
    simpl; try congruence; try reflexivity.
  all: split_compare; intros; first [reflexivity | congruence | lia].
Qed.

Lemma ltb_Some x y : (x <? y) = true <-> SFcompare (Prim2SF x) (Prim2SF y) = Some Lt.
Proof.
  rewrite ltb_spec. unfold SFltb.
  destruct (SFcompare _ _) as [[]|]; split; congruence.
Qed.

Lemma leb_Some x y :
  (x <=? y) = true <->
  exists c, SFcompare (Prim2SF x) (Prim2SF y) = Some c /\ cmp_le c = true.
Proof.
  rewrite leb_spec. unfold SFleb.
  destruct (SFcompare _ _) as [[]|]; split;
    try (intros [c [E L]]; inversion E; subst; simpl in L);
    try congruence; intros _; eexists; split; reflexivity.
Qed.

Lemma float_ltb_leb x y : (x <? y) = true -> (x <=? y) = true.
Proof.
  rewrite ltb_Some, leb_Some. intros H. exists Lt. split; [exact H | reflexivity].
Qed.

Lemma float_ltb_not_leb x y : (x <? y) = true -> (y <=? x) = false.
Proof.
  rewrite ltb_Some. intros H. apply SFcompare_antisym in H.
  rewrite leb_spec. unfold SFleb. rewrite H. reflexivity.
Qed.

Lemma float_ltb_asym x y : (x <? y) = true -> (y <? x) = false.
Proof.
  rewrite ltb_Some. intros H. apply SFcompare_antisym in H.
  rewrite ltb_spec. unfold SFltb. rewrite H. reflexivity.
Qed.

Lemma float_leb_trans x y z : (x <=? y) = true -> (y <=? z) = true -> (x <=? z) = true.
Proof.
  rewrite !leb_Some. intros [c1 [H1 L1]] [c2 [H2 L2]].
  exists (cmp_seq c1 c2). split.
  - eapply SFcompare_trans; eassumption.
  - destruct c1, c2; simpl in *; congruence.
Qed.

Lemma float_ltb_leb_trans x y z : (x <? y) = true -> (y <=? z) = true -> (x <? z) = true.
Proof.
  rewrite !ltb_Some, leb_Some. intros H1 [c2 [H2 L2]].
  apply (SFcompare_trans _ _ _ Lt c2 H1 H2); [reflexivity | exact L2].
Qed.

Lemma float_leb_ltb_trans x y z : (x <=? y) = true -> (y <? z) = true -> (x <? z) = true.
Proof.
  rewrite !ltb_Some, leb_Some. intros [c1 [H1 L1]] H2.
  pose proof (SFcompare_trans _ _ _ c1 Lt H1 H2 L1 eq_refl) as H.
  destruct c1; simpl in *; congruence.
Qed.

End FloatOrder.

(** ** The segmentation policy *)

Section Diarization.

Variable self : SimpleEnergyDiarizer.

Lemma diarize_step_segments st span :
  exists label,
    segments (diarize_step self st span) =
    segments st ++ [mkDiarizationSegment (fst span) (snd span) label 0.5%float].
Proof.
  destruct span as [start end_]. unfold diarize_step.
  destruct (_ && _); [| destruct (_ <=? _)%float]; simpl; eexists; reflexivity.
Qed.

Lemma diarize_loop_spans timestamps : forall st,
  map span_of (segments (diarize_loop self timestamps st)) =
  map span_of (segments st) ++ timestamps.
Proof.
  induction timestamps as [|span rest IH]; intros st; simpl.
  - now rewrite app_nil_r.
  - unfold diarize_loop in *. simpl. rewrite IH.
    destruct (diarize_step_segments st span) as [label ->].
    rewrite map_app, <- app_assoc. simpl. now destruct span.
Qed.

Lemma diarize_spans timestamps :
  map span_of (diarize self timestamps) = timestamps.
Proof.
  destruct timestamps as [|span rest]; [reflexivity |].
  unfold diarize. now rewrite diarize_loop_spans.
Qed.

End Diarization.

(** C2. [diarize] returns one segment per input span, in the input's order:
    the output has the length of the input, its i-th segment carries the start
    and the end of the i-th span, and the empty input gives the empty output. *)
Theorem diarize_same_length_and_order :
  forall (self : SimpleEnergyDiarizer) (timestamps : list (float * float)),
    length (diarize self timestamps) = length timestamps
    /\ (forall i, span_of <$> (diarize self timestamps !! i) = timestamps !! i)
    /\ diarize self [] = [].
Proof.
  intros self timestamps. pose proof (diarize_spans self timestamps) as H.
  split; [| split].
  - rewrite <- H at 2. now rewrite length_map.
  - intros i. rewrite <- H at 2. now rewrite list_lookup_fmap.
  - reflexivity.
Qed.

(** C3. On [[(0, 20)]] with [max_duration = 15] the code returns one segment,
    and that segment carries the second label: the first test is skipped
    because no segment was appended yet, but the test on the running total
    (20 >= 15) then takes a new label.  The first label is never emitted. *)
Theorem diarize_first_long_utterance_switches :
  let self := SimpleEnergyDiarizer_init None (Some 15.0%float) in
  max_duration self = 15.0%float
  /\ diarize self [(0%float, 20%float)]
     = [mkDiarizationSegment 0 20 "Speaker B" 0.5]
  /\ speaker_label_of 0 = "Speaker A"
  /\ speaker_label_of 1 = "Speaker B".
Proof. vm_compute. repeat split; reflexivity. Qed.

Section SingleLabel.

Variable self : SimpleEnergyDiarizer.

(** The loop keeps its label as long as neither test fires. *)
Lemma diarize_loop_keeps_label timestamps : forall st,
  Forall (fun span => (span_duration span <? max_duration self)%float = true) timestamps ->
  (forall k, 0 < k <= length timestamps ->
     (max_duration self
        <=? fold_left PrimFloat.add (map span_duration (take k timestamps))
              (total_duration st))%float = false) ->
  Forall (fun seg => seg_speaker_label seg = speaker_label_of (cycle_pos st))
         (segments st) ->
  Forall (fun seg => seg_speaker_label seg = speaker_label_of (cycle_pos st))
         (segments (diarize_loop self timestamps st)).
Proof.
  induction timestamps as [|span rest IH]; intros st Hd Hsum Hst; [exact Hst |].
  unfold diarize_loop in *. simpl.
  inversion Hd as [|? ? Hspan Hrest]; subst.
  assert (Hstep : diarize_step self st span =
                  {| cycle_pos := cycle_pos st;
                     total_duration := (total_duration st + span_duration span)%float;
                     segments := segments st ++
                       [mkDiarizationSegment (fst span) (snd span)
                          (speaker_label_of (cycle_pos st)) 0.5%float] |}).
  { destruct span as [start end_]. unfold diarize_step.
    rewrite (float_ltb_asym _ _ Hspan). simpl.
    assert (H1 : (max_duration self
                    <=? total_duration st + span_duration (start, end_))%float = false).
    { apply (Hsum 1). simpl. lia. }
    rewrite H1. reflexivity. }
  rewrite Hstep.
  set (st' := {| cycle_pos := cycle_pos st |}).
  change (cycle_pos st) with (cycle_pos st').
  apply IH; [exact Hrest | |].
  - intros k Hk. specialize (Hsum (S k)). simpl in Hsum. apply Hsum. lia.
  - subst st'. simpl. apply Forall_app. split; [exact Hst |].
    constructor; [reflexivity | constructor].
Qed.

End SingleLabel.

(** C4. When every utterance lasts less than [max_duration] and no cumulative
    duration reaches [max_duration], every segment carries the initial label. *)
Theorem diarize_single_label :
  forall (self : SimpleEnergyDiarizer) (timestamps : list (float * float)),
    Forall (fun span => (span_duration span <? max_duration self)%float = true)
           timestamps ->
    Forall (fun total => (max_duration self <=? total)%float = false)
           (cumulative_durations timestamps) ->
    Forall (fun seg => seg_speaker_label seg = speaker_label_of 0)
           (diarize self timestamps).
Proof.
  intros self timestamps Hd Hsum.
  destruct timestamps as [|span rest]; [constructor |].
  unfold diarize.
  apply (diarize_loop_keeps_label self (span :: rest)
           {| cycle_pos := 0; total_duration := 0%float; segments := [] |});
    [exact Hd | | constructor].
  intros k Hk. cbn [total_duration].
  rewrite Forall_forall in Hsum.
  apply (Hsum (PyFloat.sum (map span_duration (take k (span :: rest))))).
  unfold cumulative_durations. apply list_elem_of_In, in_map_iff. exists k. split; [reflexivity |].
  apply in_seq. lia.
Qed.

Lemma diarize_single_label_witness :
  Forall (fun seg => seg_speaker_label seg = "Speaker A")
    (diarize (SimpleEnergyDiarizer_init None None)
       [(0%float, 5%float); (5%float, 9%float); (9%float, 12%float)]).
Proof.
  apply (diarize_single_label (SimpleEnergyDiarizer_init None None)
           [(0%float, 5%float); (5%float, 9%float); (9%float, 12%float)]).
  - repeat constructor.
  - repeat constructor.
Defined.

(** ** The speaking rate *)

Lemma clamped_duration_positive (x : float) : (PyFloat.max 1.0 x <=? 0)%float = false.
Proof.
  unfold PyFloat.max. destruct (1.0 <? x)%float eqn:E; [| reflexivity].
  apply float_ltb_not_leb.
  apply (float_ltb_leb_trans 0 1.0 x); [reflexivity | now apply float_ltb_leb].
Qed.

Lemma clamped_duration_of_empty_span (x : float) :
  (x <=? 0)%float = true -> PyFloat.max 1.0 x = 1.0%float.
Proof.
  intros H. unfold PyFloat.max. destruct (1.0 <? x)%float eqn:E; [| reflexivity].
  assert (H0 : (0 <? x)%float = true).
  { apply (float_ltb_leb_trans 0 1.0 x); [reflexivity | now apply float_ltb_leb]. }
  apply float_ltb_not_leb in H0. congruence.
Qed.

(** C5, as the claim states it, fails: for a span of 30 seconds and ten words
    the code gives 20 words per minute where the claim's formula gives 10, and
    for an empty span and one word the code gives 60 where the claim says 0. *)
Lemma speaking_rate_claim_counterexample :
  let extract := extract_features (fun _ _ => []) (fun _ _ => []) (fun _ _ => [])
                   (fun _ => 0%float) (fun _ => 0%float) in
  speaking_rate (extract ["a b c d e f g h i j"] 0%float 30%float) = 20%float
  /\ spec_speaking_rate ["a b c d e f g h i j"] 0%float 30%float = 10%float
  /\ speaking_rate (extract ["hello"] 5%float 5%float) = 60%float
  /\ spec_speaking_rate ["hello"] 5%float 5%float = 0%float.
Proof. vm_compute. repeat split; reflexivity. Qed.

(** C5, amended.  The speaking rate of [extract_features] is the word count
    over [max(1.0, end - start) / 60.0]; the duration handed to
    [compute_speaking_rate] is at least one second, so its [0.0] answer for a
    duration that is not positive is never used here, and a span with
    [end - start <= 0] gets the word count over [1.0 / 60.0]. *)
Theorem speaking_rate_of_extract_features :
  forall (segment_pitch segment_energy segment_centroid : float -> float -> list float)
         (np_mean np_std : list float -> float)
         (texts : list string) (start end_ : float),
    let rate := speaking_rate
                  (extract_features segment_pitch segment_energy segment_centroid
                     np_mean np_std texts start end_) in
    rate = (PyFloat.of_nat (word_count texts)
            / (PyFloat.max 1.0 (end_ - start) / 60.0))%float
    /\ ((end_ - start <=? 0)%float = true ->
        rate = (PyFloat.of_nat (word_count texts) / (1.0 / 60.0))%float)
    /\ (forall duration, (duration <=? 0)%float = true ->
          compute_speaking_rate texts duration = 0%float).
Proof.
  intros sp se sc m sd texts start end_. cbn [speaking_rate extract_features].
  unfold compute_speaking_rate. rewrite clamped_duration_positive.
  split; [reflexivity | split].
  - intros H. now rewrite (clamped_duration_of_empty_span _ H).
  - intros duration H. now rewrite H.
Qed.

Lemma speaking_rate_of_extract_features_witness :
  speaking_rate
    (extract_features (fun _ _ => []) (fun _ _ => []) (fun _ _ => [])
       (fun _ => 0%float) (fun _ => 0%float) ["hello there"] 5%float 5%float)
  = (PyFloat.of_nat 2 / (1.0 / 60.0))%float.
Proof.
  apply (speaking_rate_of_extract_features (fun _ _ => []) (fun _ _ => [])
           (fun _ _ => []) (fun _ => 0%float) (fun _ => 0%float)
           ["hello there"] 5%float 5%float).
  reflexivity.
Defined.

(** ** The identity matcher *)

Section Matching.

Variable vector : list float.
Variable team_members : option (list string).

Local Abbreviation threshold := config.FEATURE_SIMILARITY_THRESHOLD.

Lemma threshold_positive : (0 <? threshold)%float = true.
Proof. reflexivity. Qed.

Lemma match_step_invariant seen st row :
  match_invariant vector team_members seen st ->
  match_invariant vector team_members (seen ++ [row])
    (match_step vector team_members st row).
Proof.
  destruct st as [best [m|]]; unfold match_invariant, match_step; simpl.
  - (* a match is held *)
    intros (Hbest & Hthr & before & row0 & after & Hseen & Hrow0 & Hm & Hbefore & Hafter).
    destruct (skipped team_members row) eqn:Hskip; simpl.
    + split; [exact Hbest | split; [exact Hthr |]].
      exists before, row0, (after ++ [row]). repeat split; try assumption.
      * now rewrite Hseen, <- app_assoc.
      * intros r Hr Hc. apply in_app_or in Hr as [Hr | [-> | []]]; [auto | congruence].
    + destruct (best <? row_score vector row)%float eqn:Hlt; simpl;
        [destruct (threshold <=? row_score vector row)%float eqn:Hge |]; simpl.
      * (* the row replaces the match *)
        split; [reflexivity | split; [exact Hge |]].
        exists seen, row, []. repeat split; try assumption; [| intros r []].
        intros r Hr Hc.
        destruct (row_score vector row <=? row_score vector r)%float eqn:Hle;
          [exfalso | reflexivity].
        pose proof (float_ltb_leb_trans _ _ _ Hlt Hle) as Hbr.
        rewrite Hseen in Hr. apply in_app_or in Hr as [Hr | [<- | Hr]].
        -- specialize (Hbefore r Hr Hc). rewrite <- Hbest in Hbefore.
           apply float_ltb_leb in Hbr. congruence.
        -- rewrite Hm in Hbest. simpl in Hbest. rewrite Hbest in Hlt.
           apply float_ltb_not_leb in Hlt. congruence.
        -- specialize (Hafter r Hr Hc). rewrite <- Hbest in Hafter. congruence.
      * (* above the match but below the threshold: impossible *)
        exfalso. rewrite <- Hbest in Hthr.
        pose proof (float_leb_ltb_trans _ _ _ Hthr Hlt) as H.
        apply float_ltb_leb in H. congruence.
      * split; [exact Hbest | split; [exact Hthr |]].
        exists before, row0, (after ++ [row]). repeat split; try assumption.
        -- now rewrite Hseen, <- app_assoc.
        -- intros r Hr Hc. apply in_app_or in Hr as [Hr | [<- | []]]; [auto |].
           now rewrite <- Hbest.
  - (* no match yet *)
    intros (Hbest & Hnone).
    destruct (skipped team_members row) eqn:Hskip; simpl.
    + split; [exact Hbest |].
      intros r Hr Hc. apply in_app_or in Hr as [Hr | [-> | []]]; [auto | congruence].
    + destruct (best <? row_score vector row)%float eqn:Hlt; simpl;
        [destruct (threshold <=? row_score vector row)%float eqn:Hge |]; simpl.
      * split; [reflexivity | split; [exact Hge |]].
        exists seen, row, []. repeat split; try assumption; [| intros r []].
        intros r Hr Hc.
        destruct (row_score vector row <=? row_score vector r)%float eqn:Hle;
          [exfalso | reflexivity].
        pose proof (float_leb_trans _ _ _ Hge Hle) as H.
        rewrite (Hnone r Hr Hc) in H. discriminate.
      * split; [exact Hbest |].
        intros r Hr Hc. apply in_app_or in Hr as [Hr | [<- | []]]; [auto | exact Hge].
      * split; [exact Hbest |].
        intros r Hr Hc. apply in_app_or in Hr as [Hr | [<- | []]]; [auto |].
        destruct (threshold <=? row_score vector row)%float eqn:Hge; [exfalso | reflexivity].
        pose proof (float_ltb_leb_trans 0 threshold _ threshold_positive Hge) as H.
        rewrite Hbest in Hlt. congruence.
Qed.

Lemma match_loop_invariant rows : forall seen st,
  match_invariant vector team_members seen st ->
  match_invariant vector team_members (seen ++ rows)
    (fold_left (match_step vector team_members) rows st).
Proof.
  induction rows as [|row rest IH]; intros seen st Hinv; simpl.
  - now rewrite app_nil_r.
  - replace (seen ++ row :: rest) with ((seen ++ [row]) ++ rest)
      by now rewrite <- app_assoc.
    apply IH, match_step_invariant, Hinv.
Qed.

End Matching.

Lemma match_speaker_invariant known_speakers profile team_members :
  exists best,
    match_invariant (_vectorize (features profile)) team_members known_speakers
      (best, _match_speaker known_speakers profile team_members).
Proof.
  destruct known_speakers as [|row rest].
  - exists 0%float. split; [reflexivity | intros r []].
  - unfold _match_speaker.
    set (v := _vectorize (features profile)).
    pose proof (match_loop_invariant v team_members (row :: rest) [] (0%float, None)) as H.
    simpl app in H.
    destruct (fold_left (match_step v team_members) (row :: rest) (0%float, None))
      as [best bm] eqn:E.
    exists best. apply H. split; [reflexivity | intros r []].
Qed.

Lemma mem_In (x : string) (xs : list string) : PyStr.mem x xs = true <-> In x xs.
Proof.
  unfold PyStr.mem. rewrite existsb_exists. split.
  - intros [y [Hy E]]. apply String.eqb_eq in E. now subst.
  - intros H. exists x. split; [exact H | apply String.eqb_refl].
Qed.

(** C1. A returned match scores at least the threshold, it is a row of the
    store that was not skipped, no considered row scores more, and every
    considered row before it scores strictly less: among the considered rows
    with the maximal score the earliest one in store order is returned. *)
Theorem match_speaker_threshold_and_earliest_best :
  forall (known_speakers : list SpeakerRow) (profile : SpeakerProfile)
         (team_members : option (list string)) (m : SpeakerMatch),
    _match_speaker known_speakers profile team_members = Some m ->
    let vector := _vectorize (features profile) in
    (config.FEATURE_SIMILARITY_THRESHOLD <=? score m)%float = true
    /\ exists before row after,
         known_speakers = before ++ row :: after
         /\ skipped team_members row = false
         /\ m = {| speaker_id := row_id row; speaker_name := row_name row;
                   score := row_score vector row |}
         /\ (forall r, In r before -> skipped team_members r = false ->
               (score m <=? row_score vector r)%float = false)
         /\ (forall r, In r after -> skipped team_members r = false ->
               (score m <? row_score vector r)%float = false).
Proof.
  intros known profile team m Hm vector.
  destruct (match_speaker_invariant known profile team) as [best Hinv].
  rewrite Hm in Hinv. unfold match_invariant in Hinv. simpl in Hinv.
  destruct Hinv as (_ & Hthr & Hrows). split; assumption.
Qed.

Lemma match_speaker_threshold_and_earliest_best_witness :
  exists m,
    _match_speaker sample_store sample_profile None = Some m
    /\ speaker_name m = "Alice"
    /\ (config.FEATURE_SIMILARITY_THRESHOLD <=? score m)%float = true.
Proof.
  eexists. split; [vm_compute; reflexivity |]. split; [reflexivity |].
  apply (match_speaker_threshold_and_earliest_best sample_store sample_profile None).
  vm_compute. reflexivity.
Defined.

(** C6, as the claim states it, fails: with the empty allow-list nothing is
    skipped, and a row whose name is in no list is returned. *)
Lemma empty_allow_list_counterexample :
  exists m,
    _match_speaker sample_store sample_profile (Some []) = Some m
    /\ speaker_name m = "Alice"
    /\ ~ In (speaker_name m) [].
Proof.
  eexists. split; [vm_compute; reflexivity |]. split; [reflexivity | intros []].
Qed.

(** C6, amended.  With a provided allow-list that is not empty, a returned
    match has its name in the list; a provided empty list filters nothing and
    gives the result of no list at all. *)
Theorem match_speaker_respects_allow_list :
  forall (known_speakers : list SpeakerRow) (profile : SpeakerProfile),
    (forall (team : list string) (m : SpeakerMatch),
        team <> [] ->
        _match_speaker known_speakers profile (Some team) = Some m ->
        In (speaker_name m) team)
    /\ _match_speaker known_speakers profile (Some [])
       = _match_speaker known_speakers profile None.
Proof.
  intros known profile. split.
  - intros team m Hteam Hm.
    destruct (match_speaker_invariant known profile (Some team)) as [best Hinv].
    rewrite Hm in Hinv. unfold match_invariant in Hinv. simpl in Hinv.
    destruct Hinv as (_ & _ & before & row & after & _ & Hskip & -> & _).
    simpl. unfold skipped in Hskip.
    destruct team as [|x team]; [congruence |]. simpl in Hskip.
    apply mem_In. now apply negb_false_iff in Hskip.
  - destruct known as [|row rest]; reflexivity.
Qed.

Lemma match_speaker_respects_allow_list_witness :
  In "Bob" ["Bob"; "Dave"].
Proof.
  apply (proj1 (match_speaker_respects_allow_list sample_store sample_profile)
           ["Bob"; "Dave"]
           {| speaker_id := 3; speaker_name := "Bob";
              score := row_score (_vectorize sample_features)
                         (mkSpeakerRow 3 "Bob" sample_features ∅ ∅) |}).
  - discriminate.
  - vm_compute. reflexivity.
Defined.

(** ** Name inference *)

(** C7.  The code tests the lower-cased token against a list of title-cased
    names, so a name said twice is appended twice. *)
Theorem infer_names_repeats_a_name :
  _infer_names [turn_saying "my name is alice"; turn_saying "my name is alice"]
  = Ok ["Alice"; "Alice"]
  /\ ~ NoDup ["Alice"; "Alice"].
Proof.
  split; [vm_compute; reflexivity |].
  intros H. apply NoDup_cons_1_1 in H. apply H. constructor.
Qed.

(** C10.  A turn that ends with a phrase leaves nothing to take the first
    token from, and the subscript raises. *)
Theorem infer_names_raises_after_trailing_phrase :
  _infer_names [turn_saying "I am"] = Raise IndexError
  /\ _infer_names [turn_saying "Hello, my name is "] = Raise IndexError
  /\ _infer_names [turn_saying "this is"] = Raise IndexError.
Proof. vm_compute. repeat split; reflexivity. Qed.


Section Characters.

Import PyStr.

Ltac by_cases c := destruct c as [[] [] [] [] [] [] [] []]; vm_compute; intuition congruence.

Lemma lower_char_idem c : lower_char (lower_char c) = lower_char c.
Proof. by_cases c. Qed.

End Characters.

Section StringCase.

Import PyStr.

Lemma lower_lowered s : lowered (lower s).
Proof.
  unfold lowered. induction s as [|c s IH]; simpl; [reflexivity |].
  now rewrite lower_char_idem, IH.
Qed.

Lemma split_from_truthy s : forall word,
  Forall (fun token => truthy token = true) (split_from word s).
Proof.
  induction s as [|c s IH]; intros word; simpl.
  - destruct (truthy word) eqn:E; repeat constructor. exact E.
  - destruct (isspace c); [| apply IH].
    destruct (truthy word) eqn:E; [constructor; [exact E |] |]; apply IH.
Qed.

Lemma getitem_In {A : Type} (xs : list A) i a : getitem xs i = Ok a -> In a xs.
Proof.
  unfold getitem. destruct (nth_error xs i) eqn:E; [| discriminate].
  intros H. injection H as <-. eapply nth_error_In, E.
Qed.

Lemma name_after_truthy k l name : name_after k l = Ok name -> truthy name = true.
Proof.
  unfold name_after.
  destruct (getitem (split_once k l) 1) as [after|]; simpl; [| discriminate].
  intros H. apply getitem_In in H.
  pose proof (split_from_truthy (strip after) "") as HF.
  rewrite Forall_forall in HF. apply HF. now apply list_elem_of_In.
Qed.

Lemma truthy_title name : truthy (title name) = truthy name.
Proof.
  destruct name as [|c s]; [reflexivity |]. unfold title. simpl.
  destruct (islower c); [reflexivity |]. now destruct (isupper c).
Qed.

End StringCase.

Section NameInference.

(** The loop over the phrases, for one lower-cased text: it returns exactly
    when every phrase that occurs has a token after it, and it then adds
    these tokens one after the other, in the order of the phrases. *)
Lemma infer_keywords_fold lower keywords : forall inferred r,
  for_each (infer_keyword lower) keywords inferred = Ok r ->
  exists tokens,
    Forall2 (fun keyword name => name_after keyword lower = Ok name)
            (List.filter (fun keyword => PyStr.contains keyword lower) keywords) tokens
    /\ r = fold_left add_name tokens inferred.
Proof.
  induction keywords as [|k rest IH]; intros inferred r H; simpl in H.
  - injection H as <-. exists []. split; [constructor | reflexivity].
  - unfold infer_keyword at 1 in H. simpl.
    destruct (PyStr.contains k lower).
    + destruct (name_after k lower) as [name|] eqn:E; simpl in H; [| discriminate].
      rewrite (name_after_truthy _ _ _ E) in H. simpl in H.
      assert (Hadd : (if negb (PyStr.mem name inferred)
                      then Ok (inferred ++ [PyStr.title name]) else Ok inferred)
                     = Ok (add_name inferred name)).
      { unfold add_name. now destruct (PyStr.mem name inferred). }
      rewrite Hadd in H. simpl in H.
      apply IH in H as (tokens & HF & ->).
      exists (name :: tokens). split; [now constructor | reflexivity].
    + simpl in H. now apply IH.
Qed.

(** The loop over the turns: the tokens of the turns are added turn after
    turn. *)
Lemma infer_turns_fold turns : forall inferred r,
  for_each infer_turn turns inferred = Ok r ->
  exists tokens_of_turns,
    Forall2 turn_tokens turns tokens_of_turns
    /\ r = fold_left add_name (concat tokens_of_turns) inferred.
Proof.
  induction turns as [|t rest IH]; intros inferred r H; simpl in H.
  - injection H as <-. exists []. split; [constructor | reflexivity].
  - destruct (infer_turn inferred t) as [mid|] eqn:E; simpl in H; [| discriminate].
    apply infer_keywords_fold in E as (tokens & HF & ->).
    apply IH in H as (others & HFs & ->).
    exists (tokens :: others). split; [now constructor |].
    simpl. now rewrite fold_left_app.
Qed.

(** The names that adding tokens leaves: the names there were, then at most
    one new name for each token, the title-cased form of one of them. *)
Lemma fold_add_name tokens : forall inferred,
  exists extra,
    fold_left add_name tokens inferred = inferred ++ extra
    /\ length extra <= length tokens
    /\ Forall (fun name => exists token, In token tokens /\ name = PyStr.title token) extra.
Proof.
  induction tokens as [|t rest IH]; intros inferred; simpl.
  - exists []. rewrite app_nil_r. repeat split; [simpl; lia | constructor].
  - destruct (IH (add_name inferred t)) as (extra & -> & Hlen & HF).
    assert (Hmore : Forall (fun name => exists token,
                                (t = token \/ In token rest) /\ name = PyStr.title token) extra).
    { eapply Forall_impl; [exact HF |]. intros name (token & Hin & ->). eauto. }
    unfold add_name. destruct (PyStr.mem t inferred).
    + exists extra. repeat split; [simpl; lia | exact Hmore].
    + exists (PyStr.title t :: extra). rewrite <- app_assoc. repeat split; [simpl; lia |].
      constructor; [eauto | exact Hmore].
Qed.

End NameInference.



(** ** The keyword pass *)

(** C9, as the claim states it, fails: [strip] removes the punctuation at
    both ends of a token, so ["!happy"] counts for the category [happy]. *)
Lemma leading_punctuation_counterexample :
  _keyword_scores (PyStr.join " " ["!happy"]) !! "happy" = Some 1%float
  /\ spec_keyword_score ["happy"; "glad"; "pleased"; "delighted"]
       (PyStr.join " " ["!happy"]) = 0%float.
Proof. vm_compute. split; reflexivity. Qed.

Section KeywordPass.

Lemma Counter_from_lookup (k : string) (xs : list string) : forall m : gmap string nat,
  default 0 (fold_left (fun m x => <[x := S (default 0 (m !! x))]> m) xs m !! k)
  = default 0 (m !! k) + occurrences k xs.
Proof.
  unfold occurrences. induction xs as [|x xs IH]; intros m; simpl; [lia |].
  rewrite IH. destruct (String.eqb_spec k x) as [-> | Hne].
  - rewrite lookup_insert_eq. simpl. lia.
  - rewrite lookup_insert_ne by congruence. reflexivity.
Qed.

Lemma Counter_lookup (k : string) (xs : list string) :
  default 0 (Counter xs !! k) = occurrences k xs.
Proof. unfold Counter. now rewrite Counter_from_lookup, lookup_empty. Qed.

Lemma mem_false_occurrences (x : string) (ks : list string) :
  PyStr.mem x ks = false ->
  list_sum (map (fun k => if String.eqb k x then 1 else 0) ks) = 0.
Proof.
  induction ks as [|k ks IH]; simpl; [reflexivity |].
  rewrite (String.eqb_sym x k). destruct (String.eqb k x); simpl; [discriminate | exact IH].
Qed.

Lemma keyword_indicator (x : string) (ks : list string) :
  NoDup ks ->
  list_sum (map (fun k => if String.eqb k x then 1 else 0) ks)
  = if PyStr.mem x ks then 1 else 0.
Proof.
  induction 1 as [|k ks Hk Hnd IH]; simpl; [reflexivity |].
  rewrite (String.eqb_sym x k). destruct (String.eqb_spec k x) as [-> | Hne]; simpl.
  - rewrite mem_false_occurrences; [reflexivity |].
    destruct (PyStr.mem x ks) eqn:E; [| reflexivity].
    apply mem_In in E. exfalso. apply Hk. now apply list_elem_of_In.
  - exact IH.
Qed.

Lemma sum_of_occurrences (ks xs : list string) :
  NoDup ks ->
  list_sum (map (fun k => occurrences k xs) ks) = keyword_occurrences ks xs.
Proof.
  intros Hnd. unfold keyword_occurrences, occurrences.
  induction xs as [|x xs IH]; simpl.
  - clear Hnd. induction ks; simpl; auto.
  - transitivity (list_sum (map (fun k => if String.eqb k x then 1 else 0) ks)
                  + list_sum (map (fun k => length (List.filter (String.eqb k) xs)) ks)).
    + clear. induction ks as [|k ks IH]; simpl; [reflexivity |].
      rewrite IH. destruct (String.eqb k x); simpl; lia.
    + rewrite keyword_indicator by exact Hnd. rewrite IH.
      destruct (PyStr.mem x ks); simpl; lia.
Qed.

Lemma keyword_sets_NoDup metric keywords :
  In (metric, keywords) BASIC_EMOTION_KEYWORDS -> NoDup keywords.
Proof.
  intros H. simpl in H.
  repeat (destruct H as [H | H]; [injection H as <- <-; apply (bool_decide_unpack _); vm_compute; exact I |]).
  destruct H.
Qed.

End KeywordPass.

(** C9, amended.  The score of a category is the number of tokens that are
    one of its keywords, where the tokens are those of the white-space split of
    the joined texts, stripped of [. , ! ?] at both ends and lower-cased; a
    token with leading punctuation such as ["!happy"] is counted. *)
Theorem keyword_scores_count_stripped_tokens :
  forall (texts : list string) (metric : string) (keywords : list string),
    In (metric, keywords) BASIC_EMOTION_KEYWORDS ->
    let combined_text := PyStr.join " " texts in
    _keyword_scores combined_text !! metric
    = Some (PyFloat.of_nat
              (keyword_occurrences keywords
                 (map (fun token => PyStr.lower (PyStr.strip_chars ".,!?" token))
                      (PyStr.split combined_text)))).
Proof.
  intros texts metric keywords Hin combined_text.
  pose proof (keyword_sets_NoDup metric keywords Hin) as Hnd.
  change (map _ (PyStr.split combined_text)) with (keyword_tokens combined_text).
  rewrite <- (sum_of_occurrences keywords (keyword_tokens combined_text) Hnd).
  rewrite <- (map_ext (fun k => default 0 (Counter (keyword_tokens combined_text) !! k)))
    by (intros k; apply Counter_lookup).
  unfold _keyword_scores. simpl in Hin. cbn [fold_left BASIC_EMOTION_KEYWORDS].
  repeat (destruct Hin as [Hin | Hin];
          [injection Hin as <- <-;
           repeat (rewrite lookup_insert_ne by discriminate);
           now rewrite lookup_insert_eq |]).
  destruct Hin.
Qed.

Lemma keyword_scores_count_stripped_tokens_witness :
  _keyword_scores (PyStr.join " " ["I am !happy, so Glad."; "sad"]) !! "happy"
  = Some 2%float.
Proof.
  apply (keyword_scores_count_stripped_tokens ["I am !happy, so Glad."; "sad"]
           "happy" ["happy"; "glad"; "pleased"; "delighted"]).
  simpl. right. right. left. reflexivity.
Defined.

(** * Further properties *)

(** ** Durations and the diarizer *)

(** X1. The duration of a span and of a turn is never negative and never
    NaN: [0 <= duration] holds for every start and end, whatever they are. *)
Theorem durations_are_not_negative :
  forall (span : float * float) (turn : SpeakerTurn),
    (0 <=? span_duration span)%float = true
    /\ (0 <=? turn_duration turn)%float = true.
Proof.
  assert (H : forall x, (0 <=? PyFloat.max 0 x)%float = true).
  { intros x. unfold PyFloat.max. destruct (0 <? x)%float eqn:E.
    - now apply float_ltb_leb.
    - reflexivity. }
  intros span turn. split; apply H.
Qed.

(** X2. A diarizer never has a zero [max_duration]: [None] and both zeros are
    replaced by the configured 15.0, and every other value is kept. *)
Theorem diarizer_max_duration_is_not_zero :
  forall (min_d max_d : option float),
    let self := SimpleEnergyDiarizer_init min_d max_d in
    (max_duration self =? 0)%float = false
    /\ (max_d = None \/ max_d = Some 0%float \/ max_d = Some (-0)%float ->
        max_duration self = config.MAX_SEGMENT_DURATION)
    /\ (forall v, max_d = Some v -> (v =? 0)%float = false -> max_duration self = v).
Proof.
  intros min_d max_d. cbn [max_duration SimpleEnergyDiarizer_init].
  split; [| split].
  - destruct max_d as [v|]; simpl; [| reflexivity].
    unfold PyFloat.truthy. destruct (v =? 0)%float eqn:E; simpl; [reflexivity | exact E].
  - intros [-> | [-> | ->]]; reflexivity.
  - intros v -> E. simpl. unfold PyFloat.truthy. now rewrite E.
Qed.

Lemma diarizer_max_duration_is_not_zero_witness :
  max_duration (SimpleEnergyDiarizer_init None (Some 0%float)) = 15.0%float
  /\ max_duration (SimpleEnergyDiarizer_init None (Some 7.5%float)) = 7.5%float.
Proof.
  split.
  - apply (proj1 (proj2 (diarizer_max_duration_is_not_zero None (Some 0%float)))).
    right. left. reflexivity.
  - apply (proj2 (proj2 (diarizer_max_duration_is_not_zero None (Some 7.5%float)))
             7.5%float); reflexivity.
Defined.

Section LabelOrder.

Variable self : SimpleEnergyDiarizer.

(** One pass of the loop: the label position stays or advances by one, and
    the segment that is appended carries the label of the new position. *)
Lemma diarize_step_shape st span :
  exists p,
    (p = cycle_pos st \/ p = S (cycle_pos st))
    /\ cycle_pos (diarize_step self st span) = p
    /\ segments (diarize_step self st span) =
       segments st ++ [mkDiarizationSegment (fst span) (snd span)
                         (speaker_label_of p) 0.5%float].
Proof.
  destruct span as [start end_]. unfold diarize_step.
  destruct (_ && _); [| destruct (_ <=? _)%float]; simpl; eexists; eauto.
Qed.

(** What the loop appends to the segments it starts from: one segment for
    each span, labelled by positions that climb from the current one. *)
Lemma diarize_loop_appends timestamps : forall st,
  exists new positions,
    segments (diarize_loop self timestamps st) = segments st ++ new
    /\ length new = length timestamps
    /\ map seg_speaker_label new = map speaker_label_of positions
    /\ climbs (cycle_pos st) positions.
Proof.
  induction timestamps as [|span rest IH]; intros st.
  - exists [], []. simpl. rewrite app_nil_r. repeat split.
  - unfold diarize_loop in *. simpl fold_left.
    destruct (IH (diarize_step self st span)) as (new & ps & Hseg & Hlen & Hlab & Hcl).
    destruct (diarize_step_shape st span) as (p & Hp & Hcp & Hsp).
    rewrite Hcp in Hcl. rewrite Hsp, <- app_assoc in Hseg.
    eexists (_ :: new), (p :: ps). split; [exact Hseg |].
    split; [simpl; now rewrite Hlen |].
    split; [simpl; now rewrite Hlab |].
    split; assumption.
Qed.

(** After at least one pass, the last segment carries the label of the
    position the loop is at. *)
Lemma diarize_loop_last_label timestamps : forall st,
  timestamps <> [] ->
  exists seg,
    last (segments (diarize_loop self timestamps st)) = Some seg
    /\ seg_speaker_label seg
       = speaker_label_of (cycle_pos (diarize_loop self timestamps st)).
Proof.
  induction timestamps as [|span rest IH]; intros st Hne; [congruence |].
  unfold diarize_loop in *. simpl fold_left.
  destruct rest as [|span' rest].
  - simpl. destruct (diarize_step_shape st span) as (p & _ & -> & ->).
    eexists. rewrite last_snoc. split; reflexivity.
  - apply IH. discriminate.
Qed.

End LabelOrder.


(** X4. The diarizer works from left to right: the segments of a prefix of
    the input are a prefix of the segments of the whole input, so later
    utterances never change the label given to an earlier one. *)
Theorem diarize_prefix :
  forall (self : SimpleEnergyDiarizer) (first later : list (float * float)),
    exists rest,
      diarize self (first ++ later) = diarize self first ++ rest
      /\ length rest = length later.
Proof.
  intros self first later.
  destruct first as [|span first].
  - exists (diarize self later). split; [reflexivity |].
    rewrite <- (diarize_spans self later) at 2. now rewrite length_map.
  - unfold diarize. simpl app. unfold diarize_loop.
    change (span :: first ++ later) with ((span :: first) ++ later).
    rewrite fold_left_app.
    destruct (diarize_loop_appends self later
                (fold_left (diarize_step self) (span :: first)
                   {| cycle_pos := 0; total_duration := 0%float; segments := [] |}))
      as (new & ps & Hseg & Hlen & _).
    exists new. split; [exact Hseg | exact Hlen].
Qed.

(** X5. An utterance longer than [max_duration] that is not the first one
    always takes the next label: its segment carries the label that follows
    the label of the segment before it. *)
Theorem long_utterance_takes_next_label :
  forall (self : SimpleEnergyDiarizer) (first : list (float * float))
         (span : float * float),
    first <> [] ->
    (max_duration self <? span_duration span)%float = true ->
    exists previous n,
      last (diarize self first) = Some previous
      /\ seg_speaker_label previous = speaker_label_of n
      /\ diarize self (first ++ [span])
         = diarize self first
           ++ [mkDiarizationSegment (fst span) (snd span) (speaker_label_of (S n))
                 0.5%float].
Proof.
  intros self first span Hne Hlong.
  destruct first as [|span0 first]; [congruence |].
  set (st0 := {| cycle_pos := 0; total_duration := 0%float; segments := [] |}).
  destruct (diarize_loop_last_label self (span0 :: first) st0 Hne) as (prev & Hlast & Hlab).
  exists prev, (cycle_pos (diarize_loop self (span0 :: first) st0)).
  split; [exact Hlast | split; [exact Hlab |]].
  change (diarize self ((span0 :: first) ++ [span]))
    with (segments (diarize_loop self ((span0 :: first) ++ [span]) st0)).
  change (diarize self (span0 :: first))
    with (segments (diarize_loop self (span0 :: first) st0)).
  unfold diarize_loop at 1. rewrite fold_left_app.
  fold (diarize_loop self (span0 :: first) st0).
  set (st := diarize_loop self (span0 :: first) st0) in *.
  cbn [fold_left].
  destruct span as [start end_]. unfold diarize_step.
  rewrite Hlong.
  destruct (segments st) as [|seg segs] eqn:E; [discriminate Hlast |].
  reflexivity.
Qed.

Lemma long_utterance_takes_next_label_witness :
  exists previous n,
    last (diarize (SimpleEnergyDiarizer_init None None) [(0%float, 5%float)])
    = Some previous
    /\ seg_speaker_label previous = speaker_label_of n
    /\ diarize (SimpleEnergyDiarizer_init None None)
         ([(0%float, 5%float)] ++ [(5%float, 30%float)])
       = diarize (SimpleEnergyDiarizer_init None None) [(0%float, 5%float)]
         ++ [mkDiarizationSegment 5 30 (speaker_label_of (S n)) 0.5%float].
Proof.
  apply (long_utterance_takes_next_label (SimpleEnergyDiarizer_init None None)
           [(0%float, 5%float)] (5%float, 30%float)).
  - discriminate.
  - reflexivity.
Defined.

(** ** Transcription *)

Lemma zip_fst {A B : Type} (a : list A) : forall b : list B,
  length a = length b -> map fst (zip a b) = a.
Proof.
  induction a as [|x a IH]; intros [|y b] H; simpl in *; try discriminate; [reflexivity |].
  f_equal. apply IH. lia.
Qed.

Lemma zip_snd {A B : Type} (a : list A) : forall b : list B,
  length a = length b -> map snd (zip a b) = b.
Proof.
  induction a as [|x a IH]; intros [|y b] H; simpl in *; try discriminate; [reflexivity |].
  f_equal. apply IH. lia.
Qed.

(** X6. [transcribe] returns one turn for each transcript segment, in order:
    the turn carries the start, the end, the text and the confidence of its
    segment and no speaker name, and its label is the one the default diarizer
    gives to the segment's time span.  The [zip] drops nothing. *)
Theorem transcribe_one_turn_per_segment :
  forall segments : list TranscriptSegment,
    map (fun turn => (turn_start turn, turn_end turn, turn_text turn,
                      turn_confidence turn, turn_speaker_name turn))
        (transcribe segments)
    = map (fun seg => (ts_start seg, ts_end seg, ts_text seg,
                       Some (ts_confidence seg), None))
          segments
    /\ map turn_speaker_label (transcribe segments)
       = map seg_speaker_label
           (diarize (SimpleEnergyDiarizer_init None None)
              (map (fun seg => (ts_start seg, ts_end seg)) segments)).
Proof.
  intros segs. unfold transcribe, assign_speakers.
  set (d := diarize _ _).
  assert (Hlen : length segs = length d).
  { subst d. rewrite <- (length_map span_of), diarize_spans. now rewrite length_map. }
  rewrite !map_map. split.
  - rewrite <- (zip_fst segs d Hlen) at 2. rewrite map_map.
    apply map_ext. intros [seg dia]. reflexivity.
  - rewrite <- (zip_snd segs d Hlen) at 2. rewrite map_map.
    apply map_ext. intros [seg dia]. reflexivity.
Qed.
Section NaiveTranscription.

Variable duration : float.

(** What the loop returns when it ends: the segments it started from, then
    new ones that are chained from [start], numbered from [idx], and that end
    at [duration]. *)
Lemma naive_loop_shape fuel : forall start idx acc segs,
  naive_loop fuel duration start idx acc = Some segs ->
  exists new,
    segs = acc ++ new
    /\ chained start new
    /\ (new = [] <-> (start <? duration)%float = false)
    /\ (new <> [] -> chain_end start new = duration)
    /\ (forall i seg, new !! i = Some seg ->
          ts_text seg = ("[UNTRANSCRIBED SEGMENT " ++ str_of_nat (idx + i) ++ "]")%string
          /\ ts_confidence seg = 0%float).
Proof.
  induction fuel as [|fuel IH]; intros start idx acc segs H; [discriminate |].
  simpl in H. destruct (start <? duration)%float eqn:Hlt.
  - apply IH in H as (new & -> & Hch & Hnil & Hend & Htext).
    eexists (_ :: new). rewrite <- app_assoc. split; [reflexivity |].
    split; [split; [reflexivity | exact Hch] |].
    split; [split; intros; discriminate |].
    split.
    + intros _. cbn [chain_end ts_end].
      destruct new as [|seg new'].
      * simpl. unfold py_min in *.
        destruct (start + config.MAX_SEGMENT_DURATION <? duration)%float eqn:Hmin;
          [| reflexivity].
        destruct Hnil as [Hnil _]. specialize (Hnil eq_refl). congruence.
      * apply Hend. discriminate.
    + intros [|i] seg Hi.
      * injection Hi as <-. rewrite Nat.add_0_r. split; reflexivity.
      * replace (idx + S i) with (S idx + i) by lia. now apply Htext.
  - injection H as <-. exists []. rewrite app_nil_r.
    split; [reflexivity |]. split; [exact I |].
    split; [split; auto |]. split; [congruence |].
    intros i seg Hi. discriminate.
Qed.

End NaiveTranscription.

(** X7. When the naive transcription returns, its segments tile the
    recording: the first one starts at 0.0, each one starts where the one
    before it ends, the last one ends at the duration, the i-th one is
    numbered i and every confidence is 0.0.  It returns no segment exactly
    when the duration is not above zero, and then it returns at once. *)
Theorem naive_transcription_tiles_the_recording :
  forall (fuel : nat) (duration : float),
    ((0 <? duration)%float = false -> _naive_transcription (S fuel) duration = Some [])
    /\ forall segs,
         _naive_transcription fuel duration = Some segs ->
         chained 0%float segs
         /\ (segs = [] <-> (0 <? duration)%float = false)
         /\ (segs <> [] -> chain_end 0%float segs = duration)
         /\ (forall i seg, segs !! i = Some seg ->
               ts_text seg = ("[UNTRANSCRIBED SEGMENT " ++ str_of_nat i ++ "]")%string
               /\ ts_confidence seg = 0%float).
Proof.
  intros fuel duration. split.
  - intros H. unfold _naive_transcription. simpl. now rewrite H.
  - intros segs H. unfold _naive_transcription in H.
    apply naive_loop_shape in H as (new & -> & Hch & Hnil & Hend & Htext).
    simpl. split; [exact Hch | split; [exact Hnil | split; [exact Hend |]]].
    intros i seg Hi. exact (Htext i seg Hi).
Qed.

Lemma naive_transcription_tiles_the_recording_witness :
  exists segs,
    _naive_transcription 10 60.0%float = Some segs
    /\ length segs = 4
    /\ chained 0%float segs
    /\ chain_end 0%float segs = 60.0%float.
Proof.
  eexists. split; [vm_compute; reflexivity |]. split; [reflexivity |].
  pose proof (proj2 (naive_transcription_tiles_the_recording 10 60.0%float) _ eq_refl)
    as (Hch & _ & Hend & _).
  split; [exact Hch | apply Hend; discriminate].
Defined.

(** ** The feature vector *)

(** X8. The vector of a feature set lists its seven values in the
    lexicographic order of their names: energy mean, energy deviation, mean
    pitch, pitch deviation, speaking rate, centroid mean, centroid deviation. *)
Theorem vectorize_feature_set_layout :
  forall f : FeatureSet,
    _vectorize (FeatureSet_to_dict f)
    = [ energy_mean f; energy_std f; mean_pitch f; pitch_std f; speaking_rate f;
        spectral_centroid_mean f; spectral_centroid_std f ].
Proof. intros [mp ps sr em es cm cs]. vm_compute. reflexivity. Qed.
(** ** The psychometric scores *)

Section Analyze.

Variable sentiment : option (string -> gmap string float).
Variable texts : list string.
Variable acoustic_stats : gmap string float.

Lemma keyword_scores_inserts (t : string) :
  exists e a h s f : float,
    _keyword_scores t
    = <["fun" := f]> (<["sad" := s]> (<["happy" := h]> (<["angry" := a]>
        (<["excited" := e]> (∅ : gmap string float))))).
Proof. unfold _keyword_scores. cbn [fold_left BASIC_EMOTION_KEYWORDS]. eauto 10. Qed.

Lemma keyword_scores_dom (t : string) :
  dom (_keyword_scores t)
  = (list_to_set ["excited"; "angry"; "happy"; "sad"; "fun"] : gset string).
Proof.
  destruct (keyword_scores_inserts t) as (e & a & h & s & f & ->).
  rewrite !dom_insert_L, dom_empty_L. cbn [list_to_set foldr]. set_solver.
Qed.

Lemma keyword_scores_no_other_key (t k : string) :
  ~ In k ["excited"; "angry"; "happy"; "sad"; "fun"] -> _keyword_scores t !! k = None.
Proof.
  intros H. simpl in H.
  destruct (keyword_scores_inserts t) as (e & a & h & s & f & ->).
  rewrite !lookup_insert_ne by (intros <-; tauto). apply lookup_empty.
Qed.

(** The scores before normalisation. *)
Lemma analyze_unfold :
  exists v a d : float,
    analyze sentiment texts acoustic_stats
    = _normalize
        (_keyword_scores (PyStr.join " " texts)
         ∪ <["dominance" := d]> (<["arousal" := a]> (<["valence" := v]> DEFAULT_SCORES)))
        acoustic_stats
    /\ match sentiment with
       | Some polarity_scores =>
           let p := polarity_scores (PyStr.join " " texts) in
           v = get_float p "compound"
           /\ a = (get_float p "pos" - get_float p "neg")%float
           /\ d = get_float p "pos"
       | None => v = 0%float /\ a = 0%float /\ d = 0%float
       end.
Proof.
  unfold analyze. destruct sentiment as [polarity_scores|].
  - eexists _, _, _. split; [reflexivity | repeat split].
  - exists 0%float, 0%float, 0%float. split; [reflexivity | repeat split].
Qed.

End Analyze.

(** X9. Whatever the texts, the acoustic statistics and the sentiment
    collaborator (present or not) are, the scores returned by [analyze] have
    exactly the eight fixed keys. *)
Theorem analyze_has_the_eight_keys :
  forall (sentiment : option (string -> gmap string float)) (texts : list string)
         (acoustic_stats : gmap string float),
    dom (analyze sentiment texts acoustic_stats) = (list_to_set SCORE_KEYS : gset string).
Proof.
  intros sentiment texts ac.
  destruct (analyze_unfold sentiment texts ac) as (v & a & d & -> & _).
  unfold _normalize. rewrite !dom_insert_L, dom_union_L, keyword_scores_dom.
  rewrite !dom_insert_L. unfold DEFAULT_SCORES. cbn [list_to_map foldr fst snd].
  rewrite !dom_insert_L, dom_empty_L. unfold SCORE_KEYS. cbn [list_to_set foldr].
  set_solver.
Qed.

(** X10. The five keyword counts reach the result of [analyze] unchanged:
    they replace the defaults and the normalisation does not touch them. *)
Theorem analyze_keeps_keyword_scores :
  forall (sentiment : option (string -> gmap string float)) (texts : list string)
         (acoustic_stats : gmap string float) (metric : string),
    In metric ["excited"; "angry"; "happy"; "sad"; "fun"] ->
    analyze sentiment texts acoustic_stats !! metric
    = _keyword_scores (PyStr.join " " texts) !! metric
    /\ is_Some (analyze sentiment texts acoustic_stats !! metric).
Proof.
  intros sentiment texts ac metric Hin.
  destruct (analyze_unfold sentiment texts ac) as (v & a & d & -> & _).
  assert (Hsome : is_Some (_keyword_scores (PyStr.join " " texts) !! metric)).
  { destruct (keyword_scores_inserts (PyStr.join " " texts)) as (e & a' & h & s & f & ->).
    simpl in Hin.
    repeat (destruct Hin as [<- | Hin];
            [rewrite ?lookup_insert_ne by discriminate; rewrite lookup_insert_eq; eauto |]).
    destruct Hin. }
  assert (Hne : metric <> "arousal" /\ metric <> "dominance").
  { simpl in Hin. split; intros ->; intuition discriminate. }
  destruct Hne as [Ha Hd]. destruct Hsome as [x Hx].
  unfold _normalize.
  rewrite lookup_insert_ne by congruence. rewrite lookup_insert_ne by congruence.
  rewrite (lookup_union_Some_l _ _ _ _ Hx). split; [now rewrite Hx | eauto].
Qed.

Lemma analyze_keeps_keyword_scores_witness :
  analyze None ["so happy"; "Glad!"] ∅ !! "happy"
  = _keyword_scores (PyStr.join " " ["so happy"; "Glad!"]) !! "happy".
Proof.
  apply (analyze_keeps_keyword_scores None ["so happy"; "Glad!"] ∅ "happy").
  simpl. right. right. left. reflexivity.
Defined.

(** X11. Valence, arousal and dominance: valence is the compound polarity;
    arousal is positive minus negative polarity plus a tenth of the mean
    energy; dominance is the positive polarity plus the mean pitch over 400.
    Without the sentiment collaborator the three polarities count as 0.0, and
    an acoustic statistic that is missing counts as 0.0. *)
Theorem analyze_valence_arousal_dominance :
  forall (sentiment : option (string -> gmap string float)) (texts : list string)
         (acoustic_stats : gmap string float),
    let polarity (key : string) : float :=
      match sentiment with
      | Some polarity_scores => get_float (polarity_scores (PyStr.join " " texts)) key
      | None => 0%float
      end in
    let scores := analyze sentiment texts acoustic_stats in
    scores !! "valence" = Some (polarity "compound")
    /\ scores !! "arousal"
       = Some ((polarity "pos" - polarity "neg")
               + get_float acoustic_stats "energy_mean" / 10.0)%float
    /\ scores !! "dominance"
       = Some (polarity "pos" + get_float acoustic_stats "mean_pitch" / 400.0)%float.
Proof.
  intros sentiment texts ac polarity scores. subst scores.
  destruct (analyze_unfold sentiment texts ac) as (v & a & d & -> & Hvad).
  assert (Hv : v = polarity "compound"
               /\ a = (polarity "pos" - polarity "neg")%float /\ d = polarity "pos").
  { subst polarity. destruct sentiment; [exact Hvad |].
    destruct Hvad as (-> & -> & ->). repeat split. }
  destruct Hv as (Hv & Ha & Hd).
  set (kw := _keyword_scores (PyStr.join " " texts)).
  assert (Hk : forall k, In k ["valence"; "arousal"; "dominance"] -> kw !! k = None).
  { intros k Hk. apply keyword_scores_no_other_key. simpl in *. intuition congruence. }
  unfold _normalize, get_float.
  split; [| split].
  - rewrite !lookup_insert_ne by discriminate.
    rewrite lookup_union_r by (apply Hk; simpl; auto).
    rewrite !lookup_insert_ne by discriminate. rewrite lookup_insert_eq. now rewrite Hv.
  - rewrite lookup_insert_ne by discriminate. rewrite lookup_insert_eq.
    rewrite lookup_union_r by (apply Hk; simpl; auto).
    rewrite lookup_insert_ne by discriminate. rewrite lookup_insert_eq. simpl.
    now rewrite Ha.
  - rewrite lookup_insert_eq.
    rewrite lookup_union_r by (apply Hk; simpl; auto).
    rewrite lookup_insert_eq. simpl. now rewrite Hd.
Qed.
Section LowerTokens.

Import PyStr.

Ltac by_chars c := destruct c as [[] [] [] [] [] [] [] []]; vm_compute; reflexivity.

Lemma isspace_lower_char c : isspace (lower_char c) = isspace c.
Proof. by_chars c. Qed.

Lemma punctuation_lower_char c : mem_char (lower_char c) ".,!?" = mem_char c ".,!?".
Proof. by_chars c. Qed.

Lemma truthy_lower s : truthy (lower s) = truthy s.
Proof. now destruct s. Qed.

Lemma lower_app a b : lower (a ++ b) = (lower a ++ lower b)%string.
Proof. induction a as [|c a IH]; simpl; [reflexivity | now rewrite IH]. Qed.

Lemma split_from_lower s : forall word,
  split_from (lower word) (lower s) = map lower (split_from word s).
Proof.
  induction s as [|c s IH]; intros word; simpl.
  - rewrite truthy_lower. now destruct (truthy word).
  - rewrite isspace_lower_char, truthy_lower. destruct (isspace c).
    + destruct (truthy word); simpl; now rewrite <- (IH "").
    + rewrite <- IH. now rewrite lower_app.
Qed.

Lemma lstrip_lower (p : ascii -> bool) s :
  (forall c, p (lower_char c) = p c) ->
  lstrip_by p (lower s) = lower (lstrip_by p s).
Proof.
  intros Hp. induction s as [|c s IH]; simpl; [reflexivity |].
  rewrite Hp. now destruct (p c).
Qed.

Lemma rstrip_lower (p : ascii -> bool) s :
  (forall c, p (lower_char c) = p c) ->
  rstrip_by p (lower s) = lower (rstrip_by p s).
Proof.
  intros Hp. induction s as [|c s IH]; simpl; [reflexivity |].
  rewrite IH, Hp. destruct (rstrip_by p s); simpl; [now destruct (p c) | reflexivity].
Qed.

Lemma keyword_tokens_lower (t : string) :
  keyword_tokens (lower t) = keyword_tokens t.
Proof.
  unfold keyword_tokens, split.
  pose proof (split_from_lower t EmptyString) as H.
  change (lower EmptyString) with EmptyString in H.
  rewrite H, map_map. apply map_ext. intros token.
  unfold strip_chars.
  rewrite lstrip_lower, rstrip_lower by (intros c; apply punctuation_lower_char).
  apply lower_lowered.
Qed.

End LowerTokens.

(** X12. The keyword pass does not see the case of its text: lower-casing
    the text beforehand gives the same scores. *)
Theorem keyword_scores_ignore_case :
  forall combined_text : string,
    _keyword_scores (PyStr.lower combined_text) = _keyword_scores combined_text.
Proof.
  intros t. unfold _keyword_scores. now rewrite keyword_tokens_lower.
Qed.

(** ** More on the identity matcher *)

Section MatcherBranches.

Variable np : option numpy.
Variable vector : list float.
Variable team_members : option (list string).

Local Abbreviation step := (match_step_with np vector team_members).
Local Abbreviation score_of :=
  (fun row : SpeakerRow =>
     cosine_similarity_with np vector (_vectorize (row_feature_vector row))).

(** A match that is held is never given up. *)
Lemma match_loop_keeps_a_match rows : forall st st',
  for_each step rows st = Ok st' -> snd st <> None -> snd st' <> None.
Proof.
  induction rows as [|row rest IH]; intros st st' H Hst; simpl in H.
  - now injection H as <-.
  - destruct (step st row) as [mid|] eqn:E; simpl in H; [| discriminate].
    apply (IH _ _ H). unfold match_step_with in E.
    destruct (skipped team_members row); [now injection E as <- |].
    destruct (score_of row) as [s|]; simpl in E; [| discriminate].
    destruct (_ && _); injection E as <-; [discriminate | exact Hst].
Qed.

(** A loop that ends without a match has seen no considered row that reaches
    the threshold. *)
Lemma match_loop_without_match rows : forall best st',
  for_each step rows (best, None) = Ok st' ->
  best = 0%float ->
  snd st' = None ->
  forall row s, In row rows -> skipped team_members row = false ->
    score_of row = Ok s ->
    (config.FEATURE_SIMILARITY_THRESHOLD <=? s)%float = false.
Proof.
  induction rows as [|row rest IH]; intros best st' H Hbest Hnone r s Hin Hskip Hs;
    [destruct Hin |].
  simpl in H. destruct (step (best, None) row) as [mid|] eqn:E; simpl in H; [| discriminate].
  unfold match_step_with in E. simpl in E.
  destruct (skipped team_members row) eqn:Hrow.
  - injection E as <-. destruct Hin as [-> | Hin]; [congruence |].
    now apply (IH _ _ H Hbest Hnone r s).
  - destruct (score_of row) as [s0|] eqn:Es; simpl in E; [| discriminate].
    destruct ((best <? s0)%float && (config.FEATURE_SIMILARITY_THRESHOLD <=? s0)%float)
      eqn:Hacc; injection E as <-.
    + exfalso. apply (match_loop_keeps_a_match _ _ _ H); [discriminate | exact Hnone].
    + destruct Hin as [-> | Hin]; [| now apply (IH _ _ H Hbest Hnone r s)].
      rewrite Hs in Es. injection Es as <-.
      destruct (config.FEATURE_SIMILARITY_THRESHOLD <=? s)%float eqn:Hge; [| reflexivity].
      rewrite andb_true_r in Hacc. subst best.
      pose proof (float_ltb_leb_trans 0 config.FEATURE_SIMILARITY_THRESHOLD s
                    eq_refl Hge). congruence.
Qed.

(** The loop returns when no considered row has a vector of another length
    than the profile's. *)
Lemma match_loop_returns rows : forall st,
  (forall row, In row rows -> skipped team_members row = false ->
     length vector = length (_vectorize (row_feature_vector row))) ->
  exists st', for_each step rows st = Ok st'.
Proof.
  induction rows as [|row rest IH]; intros st Hlen; simpl; [eauto |].
  assert (Hstep : exists mid, step st row = Ok mid).
  { unfold match_step_with. destruct (skipped team_members row) eqn:Hskip; [eauto |].
    unfold cosine_similarity_with. destruct np as [m|]; simpl.
    - destruct (_ || _); simpl; [destruct (_ && _); eauto |].
      rewrite (Hlen row) by (try exact Hskip; now left).
      rewrite Nat.eqb_refl. simpl. destruct (_ && _); eauto.
    - destruct (_ && _); eauto. }
  destruct Hstep as [mid ->]. simpl. apply IH.
  intros r Hr. apply Hlen. now right.
Qed.

End MatcherBranches.

(** Without numpy the loop is the loop of [_match_speaker]. *)
Lemma match_loop_without_numpy vector team_members rows : forall st,
  for_each (match_step_with None vector team_members) rows st
  = Ok (fold_left (match_step vector team_members) rows st).
Proof.
  induction rows as [|row rest IH]; intros [best bm]; [reflexivity |].
  assert (Hstep : match_step_with None vector team_members (best, bm) row
                  = Ok (match_step vector team_members (best, bm) row)).
  { unfold match_step_with, match_step, row_score. simpl.
    destruct (skipped team_members row); [reflexivity |].
    simpl. now destruct (_ && _). }
  cbn [for_each fold_left]. rewrite Hstep. simpl. apply IH.
Qed.

(** X13. The matcher misses no candidate, in either branch of
    [_cosine_similarity]: when [_match_speaker] returns and some row that is
    not skipped scores at least the threshold, what it returns is a match,
    never [None].  Without numpy it always returns, and returns what the list
    branch computes; with numpy it returns when every row that is not skipped
    has as many features as the profile ([np.dot] raises [ValueError]
    otherwise). *)
Theorem match_speaker_misses_no_candidate :
  forall (np : option numpy) (known_speakers : list SpeakerRow)
         (profile : SpeakerProfile) (team_members : option (list string)),
    let vector := _vectorize (features profile) in
    match_speaker_with None known_speakers profile team_members
    = Ok (_match_speaker known_speakers profile team_members)
    /\ ((forall row, In row known_speakers -> skipped team_members row = false ->
           length vector = length (_vectorize (row_feature_vector row))) ->
        exists found, match_speaker_with np known_speakers profile team_members = Ok found)
    /\ (forall found row s,
          match_speaker_with np known_speakers profile team_members = Ok found ->
          In row known_speakers ->
          skipped team_members row = false ->
          cosine_similarity_with np vector (_vectorize (row_feature_vector row)) = Ok s ->
          (config.FEATURE_SIMILARITY_THRESHOLD <=? s)%float = true ->
          exists m, found = Some m).
Proof.
  intros np known profile team vector. subst vector. split; [| split].
  - destruct known as [|row rest]; [reflexivity |].
    unfold match_speaker_with, _match_speaker. now rewrite match_loop_without_numpy.
  - intros Hlen. destruct known as [|row rest]; [simpl; eauto |].
    unfold match_speaker_with.
    destruct (match_loop_returns np (_vectorize (features profile)) team (row :: rest)
                (0%float, None) Hlen) as [st' ->].
    simpl. eauto.
  - intros found row s H Hin Hskip Hs Hthr.
    destruct known as [|row0 rest]; [destruct Hin |].
    unfold match_speaker_with in H.
    destruct (for_each _ (row0 :: rest) _) as [st'|] eqn:E; simpl in H; [| discriminate].
    injection H as <-. destruct (snd st') as [m|] eqn:Hm; [eauto |].
    pose proof (match_loop_without_match np (_vectorize (features profile)) team
                  _ _ _ E eq_refl Hm row s Hin Hskip Hs) as Hlow.
    congruence.
Qed.

Lemma match_speaker_misses_no_candidate_witness :
  exists m,
    Some {| speaker_id := 3; speaker_name := "Bob";
            score := row_score (_vectorize sample_features)
                       (mkSpeakerRow 3 "Bob" sample_features ∅ ∅) |}
    = Some m.
Proof.
  apply (proj2 (proj2 (match_speaker_misses_no_candidate (Some sample_numpy)
                         sample_store sample_profile (Some ["Bob"])))
           _ (mkSpeakerRow 3 "Bob" sample_features ∅ ∅)
           (row_score (_vectorize sample_features)
              (mkSpeakerRow 3 "Bob" sample_features ∅ ∅))).
  - vm_compute. reflexivity.
  - right. right. left. reflexivity.
  - reflexivity.
  - vm_compute. reflexivity.
  - vm_compute. reflexivity.
Defined.

Lemma cosine_similarity_of_no_features (b : list float) :
  _cosine_similarity [] b = 0%float /\ _cosine_similarity b [] = 0%float.
Proof.
  split; unfold _cosine_similarity.
  - reflexivity.
  - simpl. change (PrimFloat.sqrt (PyFloat.sum []) =? 0)%float with true.
    now rewrite orb_true_r.
Qed.

(** X14. An empty feature dictionary never matches: a profile without
    features gets no match, and a match never comes from a stored row whose
    feature dictionary is empty. *)
Theorem no_features_no_match :
  forall (known_speakers : list SpeakerRow) (profile : SpeakerProfile)
         (team_members : option (list string)),
    (features profile = ∅ ->
     _match_speaker known_speakers profile team_members = None)
    /\ (forall m, _match_speaker known_speakers profile team_members = Some m ->
          exists row, In row known_speakers
                      /\ row_id row = speaker_id m
                      /\ row_name row = speaker_name m
                      /\ row_feature_vector row <> ∅).
Proof.
  intros known profile team.
  destruct (match_speaker_invariant known profile team) as [best Hinv].
  destruct (_match_speaker known profile team) as [m|].
  - unfold match_invariant in Hinv. simpl in Hinv.
    destruct Hinv as (_ & Hthr & before & row & after & Hk & _ & Hm & _).
    rewrite Hm in Hthr. simpl in Hthr. unfold row_score in Hthr. split.
    + intros Hf. rewrite Hf in Hthr.
      change (_vectorize ∅) with (@nil float) in Hthr.
      rewrite (proj1 (cosine_similarity_of_no_features _)) in Hthr. discriminate.
    + intros m' Hm'. injection Hm' as <-. exists row. rewrite Hm. simpl.
      split; [rewrite Hk; apply in_or_app; right; now left |].
      split; [reflexivity | split; [reflexivity |]].
      intros Hf. rewrite Hf in Hthr.
      change (_vectorize ∅) with (@nil float) in Hthr.
      rewrite (proj2 (cosine_similarity_of_no_features _)) in Hthr. discriminate.
  - split; [reflexivity | discriminate].
Qed.

Lemma no_features_no_match_witness :
  _match_speaker sample_store
    {| speaker_label := "Speaker A"; features := ∅; stats := ∅; psychometrics := ∅;
       inferred_names := []; matched_speaker_id := None;
       matched_speaker_name := None |} None = None.
Proof.
  apply (no_features_no_match sample_store
           {| speaker_label := "Speaker A"; features := ∅; stats := ∅;
              psychometrics := ∅; inferred_names := []; matched_speaker_id := None;
              matched_speaker_name := None |} None).
  reflexivity.
Defined.

(** ** More on name inference *)

(** ** More on name inference *)

Section NamesShape.

Lemma infer_keywords_without_phrase lower keywords : forall inferred,
  (forall keyword, In keyword keywords -> PyStr.contains keyword lower = false) ->
  for_each (infer_keyword lower) keywords inferred = Ok inferred.
Proof.
  induction keywords as [|k rest IH]; intros inferred H; [reflexivity |].
  simpl. unfold infer_keyword at 1. rewrite (H k) by now left.
  simpl. apply IH. intros k' Hk'. apply H. now right.
Qed.

End NamesShape.

(** X15. Turns that contain none of the three phrases give no name and no
    error: name inference returns the empty list. *)
Theorem infer_names_without_phrase :
  forall turns : list SpeakerTurn,
    (forall turn keyword, In turn turns -> In keyword name_keywords ->
       PyStr.contains keyword (PyStr.lower (turn_text turn)) = false) ->
    _infer_names turns = Ok [].
Proof.
  intros turns H. unfold _infer_names.
  induction turns as [|t rest IH]; [reflexivity |].
  simpl. unfold infer_turn at 1.
  rewrite infer_keywords_without_phrase by (intros k Hk; apply H; [now left | exact Hk]).
  simpl. apply IH. intros turn k Ht Hk. apply H; [now right | exact Hk].
Qed.

Lemma infer_names_without_phrase_witness :
  _infer_names [turn_saying "Project update"; turn_saying "We are happy"] = Ok [].
Proof.
  apply (infer_names_without_phrase
           [turn_saying "Project update"; turn_saying "We are happy"]).
  intros turn keyword Ht Hk. simpl in Ht, Hk.
  destruct Ht as [<- | [<- | []]]; destruct Hk as [<- | [<- | [<- | []]]];
    vm_compute; reflexivity.
Defined.

Section TokensOfTurns.

Lemma Forall2_In_r {A B : Type} (R : A -> B -> Prop) (xs : list A) (ys : list B) :
  Forall2 R xs ys -> forall y, In y ys -> exists x, In x xs /\ R x y.
Proof.
  induction 1 as [|x y xs ys Hxy HF IH]; intros z Hz; [destruct Hz |].
  destruct Hz as [<- | Hz].
  - exists x. split; [now left | exact Hxy].
  - destruct (IH z Hz) as (x' & Hx' & HR). exists x'. split; [now right | exact HR].
Qed.

(** A token of the turns is the token after a phrase that occurs in one of
    them. *)
Lemma tokens_come_from_phrases turns tokens_of_turns :
  Forall2 turn_tokens turns tokens_of_turns ->
  forall token, In token (concat tokens_of_turns) ->
    exists turn keyword,
      In turn turns
      /\ In keyword name_keywords
      /\ PyStr.contains keyword (PyStr.lower (turn_text turn)) = true
      /\ name_after keyword (PyStr.lower (turn_text turn)) = Ok token.
Proof.
  induction 1 as [|turn tokens turns others Ht HF IH]; intros token Hin; [destruct Hin |].
  simpl in Hin. apply in_app_or in Hin as [Hin | Hin].
  - destruct (Forall2_In_r _ _ _ Ht token Hin) as (keyword & Hk & Hn).
    unfold occurring_phrases in Hk. apply filter_In in Hk as [Hk Hc].
    exists turn, keyword. split; [now left | auto].
  - destruct (IH token Hin) as (turn' & keyword & Hturn & Hrest).
    exists turn', keyword. split; [now right | exact Hrest].
Qed.

Lemma tokens_at_most_three turns tokens_of_turns :
  Forall2 turn_tokens turns tokens_of_turns ->
  length (concat tokens_of_turns) <= 3 * length turns.
Proof.
  induction 1 as [|turn tokens turns others Ht HF IH]; [simpl; lia |].
  simpl. rewrite length_app.
  assert (Hlen : length tokens <= 3).
  { unfold turn_tokens in Ht. apply Forall2_length in Ht. rewrite <- Ht.
    unfold occurring_phrases, name_keywords. simpl.
    repeat (destruct (PyStr.contains _ _)); simpl; lia. }
  lia.
Qed.

End TokensOfTurns.

(** X16. The names that name inference returns are not empty, each of them
    is the title-cased first token after a phrase that occurs in one of the
    turns, and there are at most three of them for each turn. *)
Theorem infer_names_come_from_phrases :
  forall (turns : list SpeakerTurn) (names : list string),
    _infer_names turns = Ok names ->
    Forall (name_from_phrase turns) names
    /\ length names <= 3 * length turns.
Proof.
  intros turns names H. unfold _infer_names in H.
  apply infer_turns_fold in H as (tokens_of_turns & HF & ->).
  destruct (fold_add_name (concat tokens_of_turns) []) as (extra & -> & Hlen & Hextra).
  simpl. split.
  - eapply Forall_impl; [exact Hextra |].
    intros name (token & Hin & ->).
    destruct (tokens_come_from_phrases _ _ HF _ Hin)
      as (turn & keyword & Hturn & Hk & Hc & Hn).
    split; [rewrite truthy_title; eapply name_after_truthy, Hn |].
    exists turn, keyword, token. auto.
  - pose proof (tokens_at_most_three _ _ HF). lia.
Qed.

Lemma infer_names_come_from_phrases_witness :
  Forall (name_from_phrase [turn_saying "I am Bob my name is Robert"]) ["Bob"; "Robert"]
  /\ length ["Bob"; "Robert"] <= 3 * 1.
Proof.
  apply (infer_names_come_from_phrases [turn_saying "I am Bob my name is Robert"]).
  vm_compute. reflexivity.
Defined.
(** ** The profile builder *)

Section Grouping.

Lemma mem_false_not_In (x : string) (xs : list string) :
  PyStr.mem x xs = false <-> ~ In x xs.
Proof.
  rewrite <- mem_In. destruct (PyStr.mem x xs); split; congruence.
Qed.

(** The keys after an append: the label joins the keys when it is new. *)
Lemma group_append_keys turn grouped :
  map fst (group_append turn grouped)
  = if PyStr.mem (turn_speaker_label turn) (map fst grouped)
    then map fst grouped
    else map fst grouped ++ [turn_speaker_label turn].
Proof.
  induction grouped as [|[label [first rest]] others IH]; [reflexivity |].
  simpl. rewrite (String.eqb_sym (turn_speaker_label turn) label).
  destruct (String.eqb label (turn_speaker_label turn)); simpl; [reflexivity |].
  rewrite IH. now destruct (PyStr.mem _ _).
Qed.

Lemma group_turns_keys_from turns : forall grouped,
  map fst (fold_left (fun g t => group_append t g) turns grouped)
  = fold_left (fun seen label => if PyStr.mem label seen then seen else seen ++ [label])
      (map turn_speaker_label turns) (map fst grouped).
Proof.
  induction turns as [|t rest IH]; intros grouped; [reflexivity |].
  simpl. rewrite IH, group_append_keys. reflexivity.
Qed.

Lemma group_turns_keys turns :
  map fst (group_turns turns) = first_seen (map turn_speaker_label turns).
Proof. apply (group_turns_keys_from turns []). Qed.

Lemma first_seen_from_spec labels : forall seen,
  NoDup seen ->
  let r := fold_left (fun seen label => if PyStr.mem label seen then seen else seen ++ [label])
             labels seen in
  NoDup r /\ (forall l, In l r <-> In l seen \/ In l labels).
Proof.
  induction labels as [|x labels IH]; intros seen Hnd; simpl.
  - split; [exact Hnd | intros l; tauto].
  - destruct (PyStr.mem x seen) eqn:E.
    + destruct (IH seen Hnd) as [H1 H2]. split; [exact H1 |].
      intros l. rewrite H2. apply mem_In in E. split; [tauto |].
      intros [H | [<- | H]]; auto.
    + apply mem_false_not_In in E.
      assert (Hnd' : NoDup (seen ++ [x])).
      { apply NoDup_app. split; [exact Hnd |]. split.
        - intros y Hy Hx. apply list_elem_of_In in Hy, Hx.
          destruct Hx as [<- | []]. auto.
        - apply NoDup_singleton. }
      destruct (IH _ Hnd') as [H1 H2]. split; [exact H1 |].
      intros l. rewrite H2, in_app_iff. simpl. tauto.
Qed.

Lemma first_seen_spec labels :
  NoDup (first_seen labels) /\ (forall l, In l (first_seen labels) <-> In l labels).
Proof.
  destruct (first_seen_from_spec labels [] NoDup_nil_2) as [H1 H2].
  split; [exact H1 |]. intros l. rewrite (H2 l). simpl. tauto.
Qed.

Lemma turns_labelled_app label a b :
  turns_labelled label (a ++ b) = turns_labelled label a ++ turns_labelled label b.
Proof. apply List.filter_app. Qed.

Lemma group_append_absent turn grouped :
  ~ In (turn_speaker_label turn) (map fst grouped) ->
  group_append turn grouped = grouped ++ [(turn_speaker_label turn, (turn, []))].
Proof.
  induction grouped as [|[label [first rest]] others IH]; intros H; [reflexivity |].
  simpl in *. destruct (String.eqb_spec label (turn_speaker_label turn)) as [-> | Hne].
  - exfalso. apply H. now left.
  - rewrite IH by tauto. reflexivity.
Qed.

Lemma extend_group_other turn grouped :
  ~ In (turn_speaker_label turn) (map fst grouped) ->
  map (extend_group turn) grouped = grouped.
Proof.
  induction grouped as [|group others IH]; intros H; [reflexivity |].
  simpl in *. rewrite IH by tauto. f_equal. unfold extend_group.
  destruct (String.eqb_spec (fst group) (turn_speaker_label turn)); [| reflexivity].
  exfalso. apply H. now left.
Qed.

Lemma group_append_present turn grouped :
  NoDup (map fst grouped) ->
  In (turn_speaker_label turn) (map fst grouped) ->
  group_append turn grouped = map (extend_group turn) grouped.
Proof.
  induction grouped as [|[label [first rest]] others IH]; intros Hnd Hin; [destruct Hin |].
  simpl in Hnd. apply NoDup_cons in Hnd as [Hfresh Hnd].
  simpl. unfold extend_group at 1. simpl.
  destruct (String.eqb_spec label (turn_speaker_label turn)) as [-> | Hne].
  - rewrite extend_group_other; [reflexivity |].
    intros H. apply Hfresh. now apply list_elem_of_In.
  - rewrite IH; [reflexivity | exact Hnd |].
    simpl in Hin. destruct Hin as [H | H]; [congruence | exact H].
Qed.

(** What grouping has established once it has gone through the turns
    [seen]: the keys are the labels seen, each one once, and the group of a
    label holds the turns seen with this label, in their order. *)
Lemma group_turns_invariant turns : forall seen grouped,
  NoDup (map fst grouped) ->
  (forall l, In l (map fst grouped) <-> In l (map turn_speaker_label seen)) ->
  Forall (fun group => group_members group = turns_labelled (fst group) seen) grouped ->
  let final := fold_left (fun g t => group_append t g) turns grouped in
  Forall (fun group => group_members group = turns_labelled (fst group) (seen ++ turns))
         final.
Proof.
  induction turns as [|turn rest IH]; intros seen grouped Hnd Hkeys HF; simpl.
  - now rewrite app_nil_r.
  - replace (seen ++ turn :: rest) with ((seen ++ [turn]) ++ rest)
      by now rewrite <- app_assoc.
    assert (Hother : forall label, label <> turn_speaker_label turn ->
              turns_labelled label (seen ++ [turn]) = turns_labelled label seen).
    { intros label Hne. rewrite turns_labelled_app. unfold turns_labelled at 2. simpl.
      destruct (String.eqb_spec label (turn_speaker_label turn)); [congruence |].
      apply app_nil_r. }
    assert (Hsame : turns_labelled (turn_speaker_label turn) (seen ++ [turn])
                    = turns_labelled (turn_speaker_label turn) seen ++ [turn]).
    { rewrite turns_labelled_app. unfold turns_labelled at 2. simpl.
      now rewrite String.eqb_refl. }
    apply IH.
    + rewrite group_append_keys. destruct (PyStr.mem _ _) eqn:E; [exact Hnd |].
      apply mem_false_not_In in E. apply NoDup_app. split; [exact Hnd |]. split.
      * intros y Hy Hx. apply list_elem_of_In in Hy, Hx. destruct Hx as [<- | []]. auto.
      * apply NoDup_singleton.
    + intros l. rewrite group_append_keys, map_app, in_app_iff. simpl.
      destruct (PyStr.mem _ _) eqn:E.
      * apply mem_In in E. rewrite Hkeys. split; [tauto |].
        intros [H | [<- | []]]; [exact H | now apply Hkeys].
      * rewrite in_app_iff, Hkeys. simpl. tauto.
    + destruct (PyStr.mem (turn_speaker_label turn) (map fst grouped)) eqn:E.
      * apply mem_In in E. rewrite group_append_present by assumption.
        apply Forall_fmap. rewrite Forall_forall in HF. apply Forall_forall.
        intros group Hin. specialize (HF group Hin). simpl. unfold extend_group.
        destruct (String.eqb_spec (fst group) (turn_speaker_label turn)) as [Heq | Hne].
        -- unfold group_members in *. simpl. rewrite Heq in *. rewrite Hsame, <- HF.
           reflexivity.
        -- rewrite Hother by exact Hne. exact HF.
      * apply mem_false_not_In in E. rewrite group_append_absent by exact E.
        apply Forall_app. split.
        -- rewrite Forall_forall in HF. apply Forall_forall.
           intros group Hin. rewrite Hother; [now apply HF |].
           intros Heq. apply E. rewrite <- Heq. apply in_map. now apply list_elem_of_In.
        -- constructor; [| constructor]. unfold group_members. simpl. rewrite Hsame.
           replace (turns_labelled (turn_speaker_label turn) seen) with (@nil SpeakerTurn);
             [reflexivity |].
           symmetry. unfold turns_labelled.
           destruct (List.filter _ seen) as [|t ts] eqn:Ef; [reflexivity |].
           assert (Ht : In t (List.filter (fun t0 => String.eqb (turn_speaker_label turn)
                                                    (turn_speaker_label t0)) seen))
             by (rewrite Ef; now left).
           apply filter_In in Ht as [Ht Hl]. apply String.eqb_eq in Hl.
           exfalso. apply E. apply Hkeys. rewrite Hl. now apply in_map.
Qed.

Lemma group_turns_members turns :
  Forall (fun group => group_members group = turns_labelled (fst group) turns)
         (group_turns turns).
Proof.
  apply (group_turns_invariant turns [] []).
  - constructor.
  - intros l. simpl. tauto.
  - constructor.
Qed.

End Grouping.

Section BuildProfilesFacts.

Variable extractor : list string -> float -> float -> FeatureSet.
Variable analyzer : list string -> gmap string float -> gmap string float.
Variable statistics_mean : list float -> float.
Variable known_speakers : list SpeakerRow.
Variable team_members : option (list string).

Local Abbreviation build_profile' :=
  (build_profile extractor analyzer statistics_mean known_speakers team_members).
Local Abbreviation build_step' :=
  (build_step extractor analyzer statistics_mean known_speakers team_members).

(** The matcher reads nothing of a profile but its features. *)
Lemma match_speaker_reads_features (profile : SpeakerProfile) (f : gmap string float) :
  features profile = f ->
  _match_speaker known_speakers profile team_members
  = _match_speaker known_speakers
      {| speaker_label := ""; features := f; stats := ∅; psychometrics := ∅;
         inferred_names := []; matched_speaker_id := None;
         matched_speaker_name := None |} team_members.
Proof. intros <-. unfold _match_speaker. destruct known_speakers; reflexivity. Qed.

(** A profile that is built carries the label of its group and is made of
    the members of the group. *)
Lemma build_profile_Ok group profile turns :
  build_profile' group = Ok profile ->
  group_members group = turns_labelled (fst group) turns ->
  speaker_label profile = fst group
  /\ profile_of_turns extractor analyzer known_speakers team_members turns profile.
Proof.
  destruct group as [label [first rest]]. unfold build_profile, profile_of_turns.
  unfold group_members. simpl fst. simpl snd. intros H Hm.
  destruct (_infer_names (first :: rest)) as [names|] eqn:En; simpl in H; [| discriminate].
  match type of H with
  | match ?found with _ => _ end = _ => destruct found as [m|] eqn:Em
  end; injection H as <-; simpl; rewrite <- Hm; (split; [reflexivity |]);
    (split; [discriminate |]); (split; [exact En |]); (split; [reflexivity |]);
    (split; [reflexivity |]); (split; [reflexivity |]); (split; [reflexivity |]).
  - rewrite (match_speaker_reads_features _ _ eq_refl) in Em. simpl in Em.
    rewrite (match_speaker_reads_features _ _ eq_refl). simpl. rewrite Em.
    split; reflexivity.
  - rewrite (match_speaker_reads_features _ _ eq_refl) in Em. simpl in Em.
    rewrite (match_speaker_reads_features _ _ eq_refl). simpl. rewrite Em.
    split; reflexivity.
Qed.

(** The loop over the groups: one profile for each group, and the names
    written on the turns pass after pass. *)
Lemma build_loop_Ok groups : forall profiles0 turns0 profiles turns',
  for_each build_step' groups (profiles0, turns0) = Ok (profiles, turns') ->
  exists new,
    profiles = profiles0 ++ new
    /\ Forall2 (fun group profile => build_profile' group = Ok profile) groups new
    /\ turns' = map (fun turn => fold_left write_name (zip groups new) turn) turns0.
Proof.
  induction groups as [|group rest IH]; intros ps0 ts0 ps ts' H; simpl in H.
  - injection H as <- <-. exists []. rewrite app_nil_r. split; [reflexivity |].
    split; [constructor |]. simpl. now rewrite map_id.
  - destruct (build_profile' group) as [profile|] eqn:E; simpl in H; [| discriminate].
    apply IH in H as (new & -> & HF & ->).
    exists (profile :: new). rewrite <- app_assoc. split; [reflexivity |].
    split; [now constructor |].
    cbn [zip fold_left].
    destruct (matched_speaker_name profile) as [name|] eqn:Hn.
    + unfold name_turns. rewrite map_map. apply map_ext. intros turn.
      f_equal. unfold write_name. cbn [fst snd]. now rewrite Hn.
    + apply map_ext. intros turn.
      f_equal. unfold write_name. cbn [fst snd]. now rewrite Hn.
Qed.

End BuildProfilesFacts.

Section BuildProfilesResults.

Variable extractor : list string -> float -> float -> FeatureSet.
Variable analyzer : list string -> gmap string float -> gmap string float.
Variable statistics_mean : list float -> float.
Variable known_speakers : list SpeakerRow.
Variable team_members : option (list string).
Variable turns : list SpeakerTurn.

(** What a run that returns is made of: one profile for each group, made of
    the turns of the group's label, and the names written on the turns. *)
Lemma build_profiles_Ok profiles turns' :
  _build_profiles extractor analyzer statistics_mean known_speakers team_members turns
  = Ok (profiles, turns') ->
  map speaker_label profiles = map fst (group_turns turns)
  /\ Forall (profile_of_turns extractor analyzer known_speakers team_members turns)
            profiles
  /\ turns' = map (fun turn => fold_left write_name (zip (group_turns turns) profiles) turn)
                  turns.
Proof.
  unfold _build_profiles. intros H.
  apply build_loop_Ok in H as (new & -> & HF & ->). simpl app.
  pose proof (group_turns_members turns) as Hm.
  split; [| split; [| reflexivity]].
  - induction HF as [|group profile groups new Hb HF IH]; [reflexivity |].
    inversion Hm as [|? ? Hg Hgs]; subst. simpl.
    destruct (build_profile_Ok _ _ _ _ _ _ _ turns Hb Hg) as [-> _].
    now rewrite IH.
  - induction HF as [|group profile groups new Hb HF IH]; [constructor |].
    inversion Hm as [|? ? Hg Hgs]; subst.
    constructor; [| now apply IH].
    exact (proj2 (build_profile_Ok _ _ _ _ _ _ _ turns Hb Hg)).
Qed.

End BuildProfilesResults.

(** X17. A run of the profile builder that returns gives one profile for
    each speaker label, in the order in which the labels first appear among
    the turns; no label has two profiles and no label is left out. *)
Theorem build_profiles_one_profile_per_label :
  forall (extractor : list string -> float -> float -> FeatureSet)
         (analyzer : list string -> gmap string float -> gmap string float)
         (statistics_mean : list float -> float)
         (known_speakers : list SpeakerRow) (team_members : option (list string))
         (turns turns' : list SpeakerTurn) (profiles : list SpeakerProfile),
    _build_profiles extractor analyzer statistics_mean known_speakers team_members turns
    = Ok (profiles, turns') ->
    map speaker_label profiles = first_seen (map turn_speaker_label turns)
    /\ NoDup (map speaker_label profiles)
    /\ (forall label, In label (map speaker_label profiles)
                      <-> In label (map turn_speaker_label turns)).
Proof.
  intros ex an sm known team turns turns' profiles H.
  apply build_profiles_Ok in H as (Hl & _ & _).
  rewrite Hl, group_turns_keys.
  split; [reflexivity | apply first_seen_spec].
Qed.

(** X18. Each profile of a run that returns is made of the turns that carry
    its label, in their order: there is at least one such turn, the inferred
    names are those of name inference on these turns, the psychometric scores
    are those of the analyzer on their texts and the profile's features, the
    statistics count these turns, their words and their durations, and the
    matched id and name are those of the matcher on the profile, both set or
    both absent. *)
Theorem build_profiles_profile_content :
  forall (extractor : list string -> float -> float -> FeatureSet)
         (analyzer : list string -> gmap string float -> gmap string float)
         (statistics_mean : list float -> float)
         (known_speakers : list SpeakerRow) (team_members : option (list string))
         (turns turns' : list SpeakerTurn) (profiles : list SpeakerProfile),
    _build_profiles extractor analyzer statistics_mean known_speakers team_members turns
    = Ok (profiles, turns') ->
    forall profile, In profile profiles ->
      profile_of_turns extractor analyzer known_speakers team_members turns profile.
Proof.
  intros ex an sm known team turns turns' profiles H profile Hin.
  apply build_profiles_Ok in H as (_ & HF & _).
  rewrite Forall_forall in HF. apply HF. now apply list_elem_of_In.
Qed.

Section WrittenNames.

Local Abbreviation pair_label :=
  (fun pair : (string * (SpeakerTurn * list SpeakerTurn)) * SpeakerProfile =>
     fst (fst pair)).

Lemma write_name_label turn pair :
  turn_speaker_label (write_name turn pair) = turn_speaker_label turn.
Proof.
  unfold write_name. destruct (matched_speaker_name _); [| reflexivity].
  now destruct (String.eqb _ _).
Qed.

Lemma write_name_other turn pair :
  pair_label pair <> turn_speaker_label turn -> write_name turn pair = turn.
Proof.
  intros H. unfold write_name. destruct (matched_speaker_name _); [| reflexivity].
  destruct (String.eqb_spec (turn_speaker_label turn) (fst (fst pair))); [| reflexivity].
  simpl in H. congruence.
Qed.

Lemma write_name_same turn pair :
  pair_label pair = turn_speaker_label turn ->
  write_name turn pair = with_name (matched_speaker_name (snd pair)) turn.
Proof.
  intros H. unfold write_name, with_name. destruct (matched_speaker_name _); [| reflexivity].
  simpl in H. rewrite H, String.eqb_refl. reflexivity.
Qed.

Lemma write_names_other pairs : forall turn,
  ~ In (turn_speaker_label turn) (map pair_label pairs) ->
  fold_left write_name pairs turn = turn.
Proof.
  induction pairs as [|pair rest IH]; intros turn H; [reflexivity |].
  simpl in *. rewrite write_name_other by tauto. apply IH. tauto.
Qed.

Lemma write_names_same pairs : forall turn pair,
  NoDup (map pair_label pairs) ->
  In pair pairs ->
  pair_label pair = turn_speaker_label turn ->
  fold_left write_name pairs turn = with_name (matched_speaker_name (snd pair)) turn.
Proof.
  induction pairs as [|head rest IH]; intros turn pair Hnd Hin Hl; [destruct Hin |].
  simpl in Hnd. apply NoDup_cons in Hnd as [Hfresh Hnd]. simpl.
  destruct Hin as [-> | Hin].
  - rewrite write_name_same by exact Hl.
    apply write_names_other.
    assert (Hk : turn_speaker_label (with_name (matched_speaker_name (snd pair)) turn)
                 = turn_speaker_label turn)
      by (unfold with_name; now destruct (matched_speaker_name _)).
    rewrite Hk, <- Hl. intros H. apply Hfresh. now apply list_elem_of_In.
  - rewrite write_name_other.
    + now apply IH.
    + intros Heq. apply Hfresh. apply list_elem_of_In.
      simpl in Heq. rewrite Heq, <- Hl. now apply (in_map pair_label).
Qed.

Lemma zip_labels {A B : Type} (f : A -> string) (g : B -> string) (a : list A) :
  forall b : list B,
    map f a = map g b ->
    map (fun pair => f (fst pair)) (zip a b) = map f a
    /\ (forall x y, In (x, y) (zip a b) -> f x = g y /\ In y b)
    /\ (forall l, In l (map f a) -> exists x y, In (x, y) (zip a b) /\ f x = l).
Proof.
  induction a as [|x a IH]; intros [|y b] H; simpl in *; try discriminate.
  - repeat split; intros; tauto.
  - injection H as Hxy H. destruct (IH b H) as (H1 & H2 & H3).
    split; [now rewrite H1 |]. split.
    + intros x' y' [E | Hin].
      * injection E as <- <-. auto.
      * destruct (H2 _ _ Hin). auto.
    + intros l [<- | Hl].
      * exists x, y. auto.
      * destruct (H3 l Hl) as (x' & y' & Hin & Hf). exists x', y'. auto.
Qed.

End WrittenNames.

(** X19. A run that returns leaves the turns in place and changes nothing of
    them but the speaker name: a turn gets the matched name of the profile of
    its label, and keeps the name it had when that profile has no match. *)
Theorem build_profiles_names_the_turns :
  forall (extractor : list string -> float -> float -> FeatureSet)
         (analyzer : list string -> gmap string float -> gmap string float)
         (statistics_mean : list float -> float)
         (known_speakers : list SpeakerRow) (team_members : option (list string))
         (turns turns' : list SpeakerTurn) (profiles : list SpeakerProfile),
    _build_profiles extractor analyzer statistics_mean known_speakers team_members turns
    = Ok (profiles, turns') ->
    length turns' = length turns
    /\ forall i turn, turns !! i = Some turn ->
         exists profile,
           In profile profiles
           /\ speaker_label profile = turn_speaker_label turn
           /\ turns' !! i = Some (with_name (matched_speaker_name profile) turn).
Proof.
  intros ex an sm known team turns turns' profiles H.
  apply build_profiles_Ok in H as (Hl & _ & ->).
  split; [apply length_map |].
  intros i turn Hi. rewrite list_lookup_fmap, Hi. simpl.
  destruct (zip_labels fst speaker_label (group_turns turns) profiles (eq_sym Hl))
    as (Hkeys & Hpairs & Hfind).
  assert (Hin : In (turn_speaker_label turn) (map fst (group_turns turns))).
  { rewrite group_turns_keys. apply first_seen_spec. apply in_map.
    apply list_elem_of_In. eapply list_elem_of_lookup_2, Hi. }
  destruct (Hfind _ Hin) as (group & profile & Hpair & Hg).
  destruct (Hpairs _ _ Hpair) as [Hgp Hp].
  exists profile. split; [exact Hp |]. split; [congruence |].
  f_equal.
  apply (write_names_same _ turn (group, profile)); [| exact Hpair | exact Hg].
  rewrite Hkeys, group_turns_keys. apply first_seen_spec.
Qed.

Lemma build_profiles_one_profile_per_label_witness :
  exists profiles turns',
    _build_profiles sample_extractor sample_analyzer sample_mean sample_store None
      sample_turns = Ok (profiles, turns')
    /\ map speaker_label profiles = ["Speaker A"; "Speaker B"].
Proof.
  eexists _, _. split; [vm_compute; reflexivity |].
  change ["Speaker A"; "Speaker B"]
    with (first_seen (map turn_speaker_label sample_turns)).
  eapply (build_profiles_one_profile_per_label sample_extractor sample_analyzer
            sample_mean sample_store None sample_turns).
  vm_compute. reflexivity.
Defined.

Lemma build_profiles_profile_content_witness :
  exists profiles turns',
    _build_profiles sample_extractor sample_analyzer sample_mean sample_store None
      sample_turns = Ok (profiles, turns')
    /\ map inferred_names profiles = [["Alice"]; []]
    /\ forall profile, In profile profiles ->
         profile_of_turns sample_extractor sample_analyzer sample_store None
           sample_turns profile.
Proof.
  eexists _, _. split; [vm_compute; reflexivity |]. split; [reflexivity |].
  eapply (build_profiles_profile_content sample_extractor sample_analyzer
            sample_mean sample_store None sample_turns).
  vm_compute. reflexivity.
Defined.

Lemma build_profiles_names_the_turns_witness :
  exists profiles turns',
    _build_profiles sample_extractor sample_analyzer sample_mean sample_store None
      sample_turns = Ok (profiles, turns')
    /\ map turn_speaker_name turns' = [Some "Alice"; Some "Alice"; Some "Alice"]
    /\ length turns' = length sample_turns.
Proof.
  eexists _, _. split; [vm_compute; reflexivity |]. split; [reflexivity |].
  eapply (build_profiles_names_the_turns sample_extractor sample_analyzer
            sample_mean sample_store None sample_turns).
  vm_compute. reflexivity.
Defined.

(** ** The allow-list of the web handler *)

Section Strip.

Import PyStr.

Variable p : ascii -> bool.

Lemma lstrip_by_head s c r : lstrip_by p s = String c r -> p c = false.
Proof.
  induction s as [|d s IH]; simpl; [discriminate |].
  destruct (p d) eqn:E; [exact IH |]. intros H. injection H as <- _. exact E.
Qed.

Lemma rstrip_by_cons c s : p c = false -> rstrip_by p (String c s) = String c (rstrip_by p s).
Proof. intros H. simpl. rewrite H. now destruct (rstrip_by p s). Qed.

Lemma rstrip_by_idem s : rstrip_by p (rstrip_by p s) = rstrip_by p s.
Proof.
  induction s as [|c s IH]; [reflexivity |]. simpl.
  destruct (rstrip_by p s) as [|d r] eqn:E.
  - destruct (p c) eqn:Ec; [reflexivity |]. simpl. now rewrite Ec.
  - change (rstrip_by p (String c (String d r)))
      with (match rstrip_by p (String d r) with
            | EmptyString => if p c then EmptyString else String c EmptyString
            | String _ _ as r' => String c r'
            end).
    now rewrite IH.
Qed.

Lemma strip_by_idem s :
  rstrip_by p (lstrip_by p (rstrip_by p (lstrip_by p s))) = rstrip_by p (lstrip_by p s).
Proof.
  destruct (lstrip_by p s) as [|c r] eqn:E; [reflexivity |].
  pose proof (lstrip_by_head _ _ _ E) as Hc.
  rewrite (rstrip_by_cons _ _ Hc). simpl lstrip_by. rewrite Hc.
  rewrite (rstrip_by_cons _ _ Hc). now rewrite rstrip_by_idem.
Qed.

Lemma lstrip_by_no_char sep s : mem_char sep s = false -> mem_char sep (lstrip_by p s) = false.
Proof.
  induction s as [|c s IH]; [reflexivity |]. simpl.
  destruct (Ascii.eqb sep c) eqn:E; [discriminate |]. intros H.
  destruct (p c); [now apply IH |]. simpl. now rewrite E.
Qed.

Lemma rstrip_by_no_char sep s : mem_char sep s = false -> mem_char sep (rstrip_by p s) = false.
Proof.
  induction s as [|c s IH]; [reflexivity |]. simpl.
  destruct (Ascii.eqb sep c) eqn:E; [discriminate |]. intros H. specialize (IH H).
  destruct (rstrip_by p s).
  - destruct (p c); [reflexivity |]. simpl. now rewrite E.
  - simpl. now rewrite E.
Qed.

End Strip.

Lemma strip_idem s : PyStr.strip (PyStr.strip s) = PyStr.strip s.
Proof. apply strip_by_idem. Qed.

Lemma mem_char_app sep a b :
  PyStr.mem_char sep (a ++ b) = PyStr.mem_char sep a || PyStr.mem_char sep b.
Proof.
  induction a as [|c a IH]; [reflexivity |]. simpl.
  destruct (Ascii.eqb sep c); [reflexivity | exact IH].
Qed.

Lemma split_on_from_no_sep sep s : forall word,
  PyStr.mem_char sep word = false ->
  Forall (fun piece => PyStr.mem_char sep piece = false) (split_on_from sep word s).
Proof.
  induction s as [|c s IH]; intros word Hw; simpl.
  - constructor; [exact Hw | constructor].
  - destruct (Ascii.eqb c sep) eqn:E.
    + constructor; [exact Hw | now apply IH].
    + apply IH. rewrite mem_char_app, Hw. simpl.
      rewrite Ascii.eqb_sym, E. reflexivity.
Qed.

(** X21. The allow-list that the web handler hands to the pipeline is never
    the empty list: it is absent, or it holds at least one name.  Every name
    in it is not empty, has no white space at either end (stripping it again
    changes nothing) and contains no comma. *)
Theorem handler_team_is_never_empty :
  forall team_members : option string,
    handler_team team_members <> Some []
    /\ forall team, handler_team team_members = Some team ->
         team <> []
         /\ Forall (fun name => PyStr.truthy name = true
                                /\ PyStr.strip name = name
                                /\ PyStr.mem_char "," name = false) team.
Proof.
  intros tm. unfold handler_team.
  assert (HF : Forall (fun name => PyStr.truthy name = true
                                   /\ PyStr.strip name = name
                                   /\ PyStr.mem_char "," name = false) (form_team tm)).
  { unfold form_team. set (text := match tm with Some _ => _ | None => _ end).
    pose proof (split_on_from_no_sep "," text EmptyString eq_refl) as Hsep.
    fold (split_on "," text) in Hsep.
    induction (split_on "," text) as [|piece pieces IH]; [constructor |].
    inversion Hsep as [|? ? Hp Hps]; subst. simpl.
    destruct (PyStr.truthy (PyStr.strip piece)) eqn:E; [| now apply IH].
    simpl. constructor; [| now apply IH].
    split; [exact E | split; [apply strip_idem |]].
    now apply rstrip_by_no_char, lstrip_by_no_char. }
  destruct (form_team tm) as [|name team]; split; try discriminate.
  intros team' H. injection H as <-. split; [discriminate | exact HF].
Qed.

Lemma handler_team_is_never_empty_witness :
  handler_team (Some " Alice , ,Bob,") = Some ["Alice"; "Bob"]
  /\ handler_team (Some " , ") = None
  /\ ["Alice"; "Bob"] <> [].
Proof.
  split; [reflexivity | split; [reflexivity |]].
  apply (proj2 (handler_team_is_never_empty (Some " Alice , ,Bob,")) ["Alice"; "Bob"]).
  reflexivity.
Defined.
